(** * OrthomclToolbox: clusters, groups and multi-groups of an OrthoMCL file

    A shallow embedding of [ortho/OrthomclToolbox.py] (classes [Cluster],
    [Group], [MultiGroups]) together with the properties of the
    specification that concern parsing, threshold filtering, export and
    overlap.

    Conventions of the embedding.
    - A Python [str] is a Rocq [string]; its characters are the code points
      0..255.
    - An exception is a value of [exn]; a computation that mutates objects
      or the outside world is a function [S -> S * result A]: the state
      reached when an exception is raised is kept, as in Python.
    - [Cluster] objects live in a store (a list indexed by reference), since
      [Group.groups] and [Group.filtered_groups] hold the same objects.
    - The file system is a finite map from paths to contents; failures of
      the operating system (permissions, full disk) are not modelled. *)

From Stdlib Require Import Ascii ZArith.
From stdpp Require Import base gmap sets list strings pretty.

Local Open Scope Z_scope.
Local Open Scope nat_scope.

(** ** Exceptions and results *)

Inductive exn : Type :=
  | IndexError
  | ValueError
  | KeyError
  | FileNotFoundError
  | NotADirectoryError
  | IsADirectoryError
  | OSError
  | OrthoGroupException (msg : string)
  | SystemExit (msg : string).

Inductive result (A : Type) : Type :=
  | Ok (a : A)
  | Raise (e : exn).
Arguments Ok {A} a.
Arguments Raise {A} e.


(** State and exception monad: the state survives a raise. *)
Definition SE (S A : Type) : Type := S -> S * result A.

Definition ret {S A} (a : A) : SE S A := fun s => (s, Ok a).
Definition raise {S A} (e : exn) : SE S A := fun s => (s, Raise e).
Definition bind {S A B} (m : SE S A) (k : A -> SE S B) : SE S B :=
  fun s => match m s with
           | (s', Ok a) => k a s'
           | (s', Raise e) => (s', Raise e)
           end.
Definition get {S} : SE S S := fun s => (s, Ok s).
Definition modify {S} (f : S -> S) : SE S unit := fun s => (f s, Ok tt).
Definition lift_result {S A} (r : result A) : SE S A := fun s => (s, r).

Declare Scope se_scope.
Delimit Scope se_scope with se.
Notation "'let*' x ':=' m 'in' k" := (bind m (fun x => k))
  (at level 10, x name, m at level 100, k at level 200) : se_scope.
Notation "m ;; k" := (bind m (fun _ => k))
  (at level 100, k at level 200, right associativity) : se_scope.

(** [for x in l: body x] *)
Fixpoint for_each {S A} (l : list A) (body : A -> SE S unit) : SE S unit :=
  match l with
  | [] => ret tt
  | x :: l' => bind (body x) (fun _ => for_each l' body)
  end.

(** ** The Python string operations the module uses *)

Module Py.

Definition quote : ascii := ascii_of_nat 39.
Definition dquote : ascii := ascii_of_nat 34.
Definition backslash : ascii := ascii_of_nat 92.
Definition newline : ascii := ascii_of_nat 10.
Definition nul : ascii := ascii_of_nat 0.
Definition nl : string := String newline EmptyString.

(** [str.isspace] on one character, for the code points below 256:
    TAB..CR, FS..US, space, NEL and the no-break space. *)
Definition isspace (c : ascii) : bool :=
  let n := nat_of_ascii c in
  (Nat.leb 9 n && Nat.leb n 13) || (Nat.leb 28 n && Nat.leb n 32)
  || Nat.eqb n 133 || Nat.eqb n 160.

Definition is_empty (s : string) : bool :=
  match s with EmptyString => true | String _ _ => false end.

(** [s.split(sep)] for a one-character separator: never an empty list. *)
Fixpoint split (sep : ascii) (s : string) : list string :=
  match s with
  | EmptyString => [EmptyString]
  | String c s' =>
      if Ascii.eqb c sep then EmptyString :: split sep s'
      else match split sep s' with
           | x :: xs => String c x :: xs
           | [] => [String c EmptyString]
           end
  end.

Fixpoint lstrip (s : string) : string :=
  match s with
  | EmptyString => EmptyString
  | String c s' => if isspace c then lstrip s' else s
  end.

Fixpoint rstrip (s : string) : string :=
  match s with
  | EmptyString => EmptyString
  | String c s' =>
      match rstrip s' with
      | EmptyString => if isspace c then EmptyString else String c EmptyString
      | r => String c r
      end
  end.

(** [s.strip()] *)
Definition strip (s : string) : string := rstrip (lstrip s).

Definition flush (cur : string) (rest : list string) : list string :=
  if is_empty cur then rest else cur :: rest.

Fixpoint split_ws_go (cur : string) (s : string) : list string :=
  match s with
  | EmptyString => flush cur []
  | String c s' =>
      if isspace c then flush cur (split_ws_go EmptyString s')
      else split_ws_go (cur +:+ String c EmptyString) s'
  end.

(** [s.split()]: the maximal runs of characters that are not whitespace. *)
Definition split_ws (s : string) : list string := split_ws_go EmptyString s.

(** [sep.join(l)] *)
Fixpoint join (sep : string) (l : list string) : string :=
  match l with
  | [] => EmptyString
  | [x] => x
  | x :: l' => x +:+ sep +:+ join sep l'
  end.

Fixpoint contains (c : ascii) (s : string) : bool :=
  match s with
  | EmptyString => false
  | String c' s' => Ascii.eqb c' c || contains c s'
  end.

Definition hex_digit (n : nat) : ascii :=
  if Nat.ltb n 10 then ascii_of_nat (48 + n) else ascii_of_nat (87 + n).

Definition hex_escape (n : nat) : string :=
  String backslash (String "x" (String (hex_digit (n / 16))
    (String (hex_digit (n mod 16)) EmptyString))).

(** One character of [repr(s)], [q] being the quote chosen for [s]. *)
Definition repr_char (q : ascii) (c : ascii) : string :=
  let n := nat_of_ascii c in
  if Ascii.eqb c q || Ascii.eqb c backslash then
    String backslash (String c EmptyString)
  else if Nat.eqb n 9 then String backslash "t"
  else if Nat.eqb n 10 then String backslash "n"
  else if Nat.eqb n 13 then String backslash "r"
  else if Nat.ltb n 32 || Nat.eqb n 127 then hex_escape n
  else if Nat.ltb n 127 then String c EmptyString
  else if Nat.leb n 160 || Nat.eqb n 173 then hex_escape n
  else String c EmptyString.

Fixpoint repr_body (q : ascii) (s : string) : string :=
  match s with
  | EmptyString => EmptyString
  | String c s' => repr_char q c +:+ repr_body q s'
  end.

(** [repr(s)] of a string: single quotes, unless the string has a single
    quote and no double quote. *)
Definition repr (s : string) : string :=
  let q := if contains quote s && negb (contains dquote s)
           then dquote else quote in
  String q (repr_body q s +:+ String q EmptyString).

(** [str(l)] of a list whose items are already rendered. *)
Definition str_list (items : list string) : string :=
  "[" +:+ join ", " items +:+ "]".

(** [s.startswith(sub)] *)
Fixpoint startswith (s sub : string) {struct sub} : bool :=
  match sub with
  | EmptyString => true
  | String a sub' =>
      match s with
      | EmptyString => false
      | String b s' => Ascii.eqb b a && startswith s' sub'
      end
  end.

Fixpoint count_go (sub : string) (skip : nat) (s : string) : nat :=
  match s with
  | EmptyString => 0
  | String _ s' =>
      match skip with
      | S k => count_go sub k s'
      | O => if startswith s sub
             then S (count_go sub (String.length sub - 1) s')
             else count_go sub 0 s'
      end
  end.

(** [s.count(sub)]: occurrences that do not overlap, scanning from the
    left; the empty string occurs [len(s) + 1] times. *)
Definition count (s sub : string) : nat :=
  if is_empty sub then String.length s + 1 else count_go sub 0 s.

Fixpoint readlines_go (cur : string) (s : string) : list string :=
  match s with
  | EmptyString => flush cur []
  | String c s' =>
      if Ascii.eqb c newline
      then (cur +:+ String c EmptyString) :: readlines_go EmptyString s'
      else readlines_go (cur +:+ String c EmptyString) s'
  end.

(** The lines a text file yields when iterated: each keeps its newline. *)
Definition readlines (s : string) : list string := readlines_go EmptyString s.

(** [max(l)] *)
Definition max (l : list nat) : result nat :=
  match l with
  | [] => Raise ValueError
  | x :: l' => Ok (foldr Nat.max x l')
  end.

(** The number of bytes of [s] in UTF-8, the encoding of file names: a
    code point below 128 takes one byte, the others here take two. *)
Fixpoint utf8_length (s : string) : nat :=
  match s with
  | EmptyString => 0
  | String c s' =>
      (if Nat.ltb (nat_of_ascii c) 128 then 1 else 2) + utf8_length s'
  end.

(** [os.path.join(a, b)] *)
Definition path_join (a b : string) : string :=
  match b with
  | String "/" _ => b
  | _ => if is_empty a then b
         else if startswith (String.rev a) "/" then a +:+ b
         else a +:+ "/" +:+ b
  end.

End Py.


(** [if x:] on a flag that is [None], [True] or [False] *)
Definition truthy (flag : option bool) : bool :=
  match flag with Some true => true | _ => false end.

(** ** class Cluster *)

Module Cluster.

Record t : Type := mk {
  name : string;
  sequences : list string;
  species_frequency : gmap string nat;
  gene_compliant : option bool;
  species_compliant : option bool
}.

Definition set_gene_compliant (b : bool) (self : t) : t :=
  mk (name self) (sequences self) (species_frequency self)
     (Some b) (species_compliant self).

Definition set_species_compliant (b : bool) (self : t) : t :=
  mk (name self) (sequences self) (species_frequency self)
     (gene_compliant self) (Some b).

(** [field.split("|")[0]]; [split] never returns an empty list, so the
    index 0 always exists. *)
Definition species_code (field : string) : string :=
  match Py.split "|" field with
  | x :: _ => x
  | [] => EmptyString
  end.

(** [parse_string]: the values it assigns to [self.name],
    [self.sequences] and [self.species_frequency].  [fields[1]] raises
    IndexError when the line has no colon.  The frequency of a species is
    [str(self.sequences).count(species)]. *)
Definition parse_string (cluster_string : string)
  : result (string * list string * gmap string nat) :=
  match Py.split ":" cluster_string with
  | f0 :: f1 :: _ =>
      let name := Py.strip f0 in
      let sequences := Py.split_ws (Py.strip f1) in
      let species_list : gset string :=
        list_to_set (map species_code sequences) in
      let text := Py.str_list (map Py.repr sequences) in
      Ok (name, sequences,
          set_to_map (fun species => (species, Py.count text species))
                     species_list)
  | _ => Raise IndexError
  end.

(** [Cluster(line_string)]: the compliance flags start as [None]; an
    exception of [parse_string] leaves no object behind. *)
Definition __init__ (line_string : string) : result t :=
  match parse_string line_string with
  | Ok (n, s, f) => Ok (mk n s f None None)
  | Raise e => Raise e
  end.

(** [self.species_frequency.values()] *)
Definition values (self : t) : list nat :=
  (map_to_list (species_frequency self)).*2.

(** [apply_filter]: the species flag is assigned first; [max] of no value
    raises ValueError before the gene flag is assigned. *)
Definition apply_filter (gene_threshold species_threshold : Z)
  : SE t unit :=
  (let* self := get in
   (if (Z.of_nat (size (species_frequency self)) >=? species_threshold)%Z
    then modify (set_species_compliant true)
    else modify (set_species_compliant false));;
   let* m := lift_result (Py.max (values self)) in
   if (Z.of_nat m <=? gene_threshold)%Z
   then modify (set_gene_compliant true)
   else modify (set_gene_compliant false))%se.

(** [cluster.species_compliant and cluster.gene_compliant] as a
    condition. *)
Definition both_compliant (self : t) : bool :=
  truthy (species_compliant self) && truthy (gene_compliant self).

Global Instance inhabited : Inhabited t :=
  populate (mk EmptyString [] ∅ None None).

End Cluster.

(** ** The world outside a method: objects, files, standard output *)

Record World : Type := mkWorld {
  heap : list Cluster.t;
  files : gmap string string;
  dirs : gset string;
  stdout : string
}.

Definition set_heap (h : list Cluster.t) (w : World) : World :=
  mkWorld h (files w) (dirs w) (stdout w).
Definition set_files (f : gmap string string) (w : World) : World :=
  mkWorld (heap w) f (dirs w) (stdout w).

(** The object behind a reference. *)
Definition deref (l : nat) : SE World Cluster.t :=
  fun w => (w, Ok (heap w !!! l)).

(** [Cluster(line)]: a new object, referred to by the next free index. *)
Definition new_Cluster (line : string) : SE World nat :=
  fun w => match Cluster.__init__ line with
           | Ok c => (set_heap (heap w ++ [c]) w, Ok (length (heap w)))
           | Raise e => (w, Raise e)
           end.

(** A method of the object behind [l], run in place. *)
Definition on_cluster {A} (l : nat) (m : SE Cluster.t A) : SE World A :=
  fun w => match m (heap w !!! l) with
           | (c, r) => (set_heap (<[l := c]> (heap w)) w, r)
           end.

(** [open(path)] for reading, and the whole text behind it (as decoded,
    with its line ends already translated). *)
Definition open_r (path : string) : SE World string :=
  fun w => match files w !! path with
           | Some text => (w, Ok text)
           | None => (w, Raise FileNotFoundError)
           end.

(** [open(path, "w")] of a path that can be opened truncates; [write]
    appends.  [open_w] is the opening of the output file whose name the
    caller of a method passes: it is taken to be a path that can be opened.
    Where the program builds the path from what it has read,
    [open_w_checked] below is used. *)
Definition open_w (path : string) : SE World unit :=
  modify (fun w => set_files (<[path := EmptyString]> (files w)) w).

(** Whether [open(path, "w")] can open [path], and the exception it raises
    when it cannot.  The components of the path are walked from left to
    right, as the system does.  A component before the last must name a
    directory: FileNotFoundError when nothing has that path,
    NotADirectoryError when a regular file has it.  The last component must
    not name a directory (IsADirectoryError).  A component of more than 255
    bytes is refused with OSError (file name too long), as is a path of
    4096 bytes or more; a path with a NUL character is refused with
    ValueError before the system is asked, and the empty path with
    FileNotFoundError.  An empty component, [.] and [..] name a directory as
    soon as the path before them does, and a component followed by slashes
    only is refused as a directory (IsADirectoryError) whatever it names.
    Paths are compared as texts: [dirs] and [files] tell which texts name a
    directory or a regular file.  Permissions and the room left on the
    device are not modelled. *)
Definition same_directory (name : string) : bool :=
  Py.is_empty name || String.eqb name "." || String.eqb name "..".

Fixpoint resolve (w : World) (dir : string) (components : list string)
  : result unit :=
  match components with
  | [] => Ok tt
  | name :: rest =>
      match rest with
      | [] =>
          if same_directory name then Raise IsADirectoryError
          else if Nat.ltb 255 (Py.utf8_length name) then Raise OSError
          else if bool_decide (dir +:+ name ∈ dirs w)
               then Raise IsADirectoryError
          else Ok tt
      | _ :: _ =>
          if forallb Py.is_empty rest then Raise IsADirectoryError
          else if same_directory name
               then resolve w (dir +:+ name +:+ "/") rest
          else if Nat.ltb 255 (Py.utf8_length name) then Raise OSError
          else if bool_decide (dir +:+ name ∈ dirs w)
               then resolve w (dir +:+ name +:+ "/") rest
          else if bool_decide (is_Some (files w !! (dir +:+ name)))
               then Raise NotADirectoryError
          else Raise FileNotFoundError
      end
  end.

Definition writable (path : string) (w : World) : result unit :=
  if Py.contains Py.nul path then Raise ValueError
  else if Py.is_empty path then Raise FileNotFoundError
  else if Nat.leb 4096 (Py.utf8_length path) then Raise OSError
  else resolve w EmptyString (Py.split "/" path).

(** [open(path, "w")] with its failures: nothing changes when the path
    cannot be opened. *)
Definition open_w_checked (path : string) : SE World unit :=
  fun w => match writable path w with
           | Ok _ => open_w path w
           | Raise e => (w, Raise e)
           end.

Definition write (path text : string) : SE World unit :=
  modify (fun w =>
    set_files (<[path := default EmptyString (files w !! path) +:+ text]>
                 (files w)) w).

Definition print (text : string) : SE World unit :=
  modify (fun w =>
    mkWorld (heap w) (files w) (dirs w) (stdout w +:+ text +:+ Py.nl)).

Definition path_exists (path : string) : SE World bool :=
  fun w => (w, Ok (bool_decide (path ∈ dirs w)
                   || bool_decide (is_Some (files w !! path)))).

Definition makedirs (path : string) : SE World unit :=
  modify (fun w => mkWorld (heap w) (files w) ({[path]} ∪ dirs w) (stdout w)).

(** Methods run on a pair: the object [self] and the world. *)
Definition get_self {T} : SE (T * World) T := fun s => (s, Ok (fst s)).
Definition modify_self {T} (f : T -> T) : SE (T * World) unit :=
  fun s => ((f (fst s), snd s), Ok tt).
Definition in_world {T A} (m : SE World A) : SE (T * World) A :=
  fun s => match m (snd s) with (w, r) => ((fst s, w), r) end.

(** ** class Group *)

Module Group.

Record t : Type := mk {
  gene_threshold : option Z;
  species_threshold : option Z;
  group_name : string;
  prefix : string;
  groups : list nat;
  filtered_groups : list nat;
  name : option string;
  species_list : list string
}.

Definition set_groups (l : list nat) (self : t) : t :=
  mk (gene_threshold self) (species_threshold self) (group_name self)
     (prefix self) l (filtered_groups self) (name self) (species_list self).
Definition set_filtered_groups (l : list nat) (self : t) : t :=
  mk (gene_threshold self) (species_threshold self) (group_name self)
     (prefix self) (groups self) l (name self) (species_list self).
Definition set_name (n : option string) (self : t) : t :=
  mk (gene_threshold self) (species_threshold self) (group_name self)
     (prefix self) (groups self) (filtered_groups self) n (species_list self).
Definition set_species_list (l : list string) (self : t) : t :=
  mk (gene_threshold self) (species_threshold self) (group_name self)
     (prefix self) (groups self) (filtered_groups self) (name self) l.

(** [self.species_threshold and self.gene_threshold] as a condition:
    [None] and [0] are false.  When it holds, the two integers. *)
Definition thresholds (self : t) : option (Z * Z) :=
  match species_threshold self, gene_threshold self with
  | Some s, Some g =>
      if Z.eqb s 0 || Z.eqb g 0 then None else Some (g, s)
  | _, _ => None
  end.

(** [species_frequency.keys()]: the keys in the order of the dictionary,
    which is that of iterating a Python set and not fixed by the
    language; the model enumerates them as the finite map does. *)
Definition keys (c : Cluster.t) : list string :=
  (map_to_list (Cluster.species_frequency c)).*1.

(** [[l.append(x) for x in xs if x not in l]] *)
Definition append_new (l xs : list string) : list string :=
  foldl (fun acc x => if bool_decide (x ∈ acc) then acc else acc ++ [x])
        l xs.

(** The body of the loop of [__parse_groups]. *)
Definition parse_line (line : string) : SE (t * World) unit :=
  (let* cluster_object := in_world (new_Cluster line) in
   modify_self (fun self => set_groups (groups self ++ [cluster_object]) self);;
   let* c := in_world (deref cluster_object) in
   modify_self (fun self =>
     set_species_list (append_new (species_list self) (keys c)) self);;
   let* self := get_self in
   match thresholds self with
   | Some (g, s) =>
       in_world (on_cluster cluster_object (Cluster.apply_filter g s));;
       let* c := in_world (deref cluster_object) in
       if Cluster.both_compliant c
       then modify_self (fun self =>
              set_filtered_groups (filtered_groups self ++ [cluster_object])
                                  self)
       else ret tt
   | None => ret tt
   end)%se.

Definition __parse_groups (groups_file : string) : SE (t * World) unit :=
  (modify_self (set_name (Some groups_file));;
   modify_self (set_species_list []);;
   let* text := in_world (open_r groups_file) in
   for_each (Py.readlines text) parse_line)%se.

(** [Group(groups_file, gene_threshold, species_threshold, project_prefix)] *)
Definition __init__ (groups_file : string)
    (gene_threshold species_threshold : option Z) (project_prefix : string)
  : SE World t :=
  fun w =>
    let self := mk gene_threshold species_threshold groups_file
                   project_prefix [] [] None [] in
    match __parse_groups groups_file (self, w) with
    | ((self', w'), Ok _) => (w', Ok self')
    | ((_, w'), Raise e) => (w', Raise e)
    end.

Definition selected (filt : bool) (self : t) : list nat :=
  if filt then filtered_groups self else groups self.

(** A dictionary that keeps the order of insertion. *)
Fixpoint dict_set (k : string) (v : nat) (d : list (string * nat))
  : list (string * nat) :=
  match d with
  | [] => [(k, v)]
  | (k', v') :: d' =>
      if String.eqb k' k then (k', v) :: d' else (k', v') :: dict_set k v d'
  end.

(** [d[k]] for a key of [d] (the loop below only reads keys of [d]). *)
Fixpoint dict_get (k : string) (d : list (string * nat)) : nat :=
  match d with
  | [] => 0
  | (k', v) :: d' => if String.eqb k' k then v else dict_get k d'
  end.

(** The two nested loops of [paralog_per_species_statistic] on the local
    dictionary [paralog_count]; [species_frequency[species]] raises
    KeyError when the cluster lacks the species. *)
Fixpoint paralog_species (c : Cluster.t) (species : list string)
    (paralog_count : list (string * nat)) : result (list (string * nat)) :=
  match species with
  | [] => Ok paralog_count
  | sp :: rest =>
      match Cluster.species_frequency c !! sp with
      | None => Raise KeyError
      | Some f =>
          paralog_species c rest
            (if Nat.ltb 1 f
             then dict_set sp (dict_get sp paralog_count + 1) paralog_count
             else paralog_count)
      end
  end.

Fixpoint paralog_clusters (cs : list Cluster.t)
    (paralog_count : list (string * nat)) : result (list (string * nat)) :=
  match cs with
  | [] => Ok paralog_count
  | c :: rest =>
      match paralog_species c paralog_count.*1 paralog_count with
      | Ok d => paralog_clusters rest d
      | Raise e => Raise e
      end
  end.

Definition paralog_per_species_statistic (output_file_name : string)
    (filt : bool) : SE (t * World) unit :=
  (let* self := get_self in
   let groups := selected filt self in
   let paralog_count :=
     foldl (fun d species => dict_set species 0 d) [] (species_list self) in
   let* w := in_world get in
   let* paralog_count :=
     lift_result
       (paralog_clusters (map (fun l => heap w !!! l) groups) paralog_count) in
   in_world (open_w output_file_name);;
   in_world (write output_file_name
               ("Species; Clusters with paralogs" +:+ Py.nl));;
   for_each paralog_count (fun kv =>
     in_world (write output_file_name
                 (fst kv +:+ "; " +:+ pretty (snd kv) +:+ Py.nl))))%se.

(** The line [export_filtered_group] writes for a cluster. *)
Definition export_line (c : Cluster.t) : string :=
  Cluster.name c +:+ ": " +:+ Py.join " " (Cluster.sequences c) +:+ Py.nl.

(** The loop of [export_filtered_group]; the counters are
    [(sp_compliant, gene_compliant, final_orthologs)]. *)
Fixpoint export_loop (output_file_name : string) (get_stats : bool)
    (clusters : list nat) (counters : nat * nat * nat)
  : SE World (nat * nat * nat) :=
  match clusters with
  | [] => ret counters
  | l :: rest =>
      (let* cluster := deref l in
       let '(sp, gene, final) := counters in
       let both := Cluster.both_compliant cluster in
       (if both then write output_file_name (export_line cluster)
        else ret tt);;
       let final := if both && get_stats then final + 1 else final in
       let sp := if get_stats && truthy (Cluster.species_compliant cluster)
                 then sp + 1 else sp in
       let gene := if get_stats && truthy (Cluster.gene_compliant cluster)
                   then gene + 1 else gene in
       export_loop output_file_name get_stats rest (sp, gene, final))%se
  end.

Definition not_filtered : string :=
  "The groups object must be filtered before using the export_filtered_groupmethod".

Definition export_filtered_group (output_file_name : string)
    (get_stats : bool) : SE (t * World) (option (nat * nat * nat * nat)) :=
  (let* self := get_self in
   match filtered_groups self with
   | _ :: _ =>
       in_world (open_w output_file_name);;
       let all_orthologs := length (groups self) in
       let* counters :=
         in_world (export_loop output_file_name get_stats
                     (filtered_groups self) (0, 0, 0)) in
       let '(sp_compliant, gene_compliant, final_orthologs) := counters in
       if get_stats
       then ret (Some (all_orthologs, sp_compliant, gene_compliant,
                       final_orthologs))
       else ret None
   | [] => raise (OrthoGroupException not_filtered)
   end)%se.

Definition update_filtered_group : SE (t * World) unit :=
  (let* self := get_self in
   let* w := in_world get in
   let updated_group :=
     foldl (fun updated l =>
              if Cluster.both_compliant (heap w !!! l)
              then updated ++ [l] else updated)
           [] (groups self) in
   modify_self (set_filtered_groups updated_group))%se.

(** The [database] argument of [retrieve_fasta]: a string, a dictionary,
    or anything else. *)
Inductive database : Type :=
  | DbStr (path : string)
  | DbDict (d : gmap string string)
  | DbOther.

Definition bad_database : string :=
  "The input database is neither a stringnor a dictionary object".

Section retrieve_fasta.

(** [Alignment(database).alignment] of [process.sequence], a module
    outside this file: the identifiers and sequences of a file. *)
Variable Alignment : string -> SE World (gmap string string).

Definition fasta_record (db_aln : gmap string string) (path : string)
    (sequence_id : string) : SE World unit :=
  match db_aln !! sequence_id with
  | Some seq =>
      write path (">" +:+ Cluster.species_code sequence_id +:+ Py.nl
                  +:+ seq +:+ Py.nl)
  | None => raise KeyError
  end.

Definition retrieve_fasta (db : database) (filt : bool)
  : SE (t * World) unit :=
  (let* self := get_self in
   let groups := selected filt self in
   (if filt
    then let* w := in_world get in
         in_world (print (Py.str_list
           (map (fun l => Py.str_list
                   (map Py.repr (Cluster.sequences (heap w !!! l))))
                (filtered_groups self))))
    else ret tt);;
   let* there := in_world (path_exists "Orthologs") in
   (if there then ret tt else in_world (makedirs "Orthologs"));;
   let* db_aln :=
     match db with
     | DbStr path => in_world (Alignment path)
     | DbDict d => ret d
     | DbOther => raise (OrthoGroupException bad_database)
     end in
   for_each groups (fun l =>
     let* cluster := in_world (deref l) in
     let path := Py.path_join "Orthologs" (Cluster.name cluster +:+ ".fas") in
     in_world (open_w_checked path);;
     in_world (for_each (Cluster.sequences cluster)
                        (fasta_record db_aln path))))%se.

End retrieve_fasta.

(** The loop of [basic_group_statistics]; the counters are
    [(total_sequence_num, clusters_species_threshold,
      clusters_gene_threshold, clusters_all_threshold)]. *)
Fixpoint statistics_loop (clusters : list Cluster.t)
    (counters : nat * nat * nat * nat) : nat * nat * nat * nat :=
  match clusters with
  | [] => counters
  | cluster :: rest =>
      let '(seqs, sp, gene, all) := counters in
      let seqs := seqs + length (Cluster.sequences cluster) in
      let sp := if truthy (Cluster.species_compliant cluster)
                then sp + 1 else sp in
      let gene := if truthy (Cluster.gene_compliant cluster)
                  then gene + 1 else gene in
      let all := if Cluster.both_compliant cluster then all + 1 else all in
      statistics_loop rest (seqs, sp, gene, all)
  end.

(** [basic_group_statistics]: the list [[total clusters, total sequences,
    species compliant, gene compliant, compliant with both]]. *)
Definition basic_group_statistics (filt : bool) : SE (t * World) (list nat) :=
  (let* self := get_self in
   let groups := selected filt self in
   let* w := in_world get in
   let total_cluster_num := length groups in
   let '(total_sequence_num, clusters_species_threshold,
         clusters_gene_threshold, clusters_all_threshold) :=
     statistics_loop (map (fun l => heap w !!! l) groups) (0, 0, 0, 0) in
   ret [total_cluster_num; total_sequence_num; clusters_species_threshold;
        clusters_gene_threshold; clusters_all_threshold])%se.

End Group.

(** ** class MultiGroups *)

Module MultiGroups.

Record t : Type := mk {
  gene_threshold : option Z;
  species_threshold : option Z;
  prefix : string;
  multiple_groups : list Group.t
}.

(** The inner function [parse_groups]: the set of identifiers of each
    cluster of a group. *)
Definition parse_groups (group_obj : Group.t) : SE World (list (gset string)) :=
  (let* w := get in
   ret (map (fun l => list_to_set (Cluster.sequences (heap w !!! l)))
            (Group.groups group_obj)))%se.

Definition two_groups_only : string :=
  "This method can only be used with two group files".

(** [counter] after the loop over [group1_list]. *)
Definition overlap_counter (group1_list group2_list : list (gset string))
  : nat :=
  foldl (fun counter i =>
           if bool_decide (i ∈ group2_list) then counter + 1 else counter)
        0 group1_list.

(** [group_overlap] prints its counter. *)
Definition group_overlap : SE (t * World) unit :=
  (let* self := get_self in
   match multiple_groups self with
   | [group1; group2] =>
       let* group1_list := in_world (parse_groups group1) in
       let* group2_list := in_world (parse_groups group2) in
       in_world (print (pretty (overlap_counter group1_list group2_list)))
   | _ => raise (SystemExit two_groups_only)
   end)%se.

(** The loop of [MultiGroups.__init__]: one [Group] for each file, built
    with the thresholds of the object and the default project prefix. *)
Fixpoint init_loop (groups_files : list string)
    (gene_threshold species_threshold : option Z) (built : list Group.t)
  : SE World (list Group.t) :=
  match groups_files with
  | [] => ret built
  | group_file :: rest =>
      (let* group_object :=
         Group.__init__ group_file gene_threshold species_threshold
                        "MyGroups" in
       init_loop rest gene_threshold species_threshold
                 (built ++ [group_object]))%se
  end.

(** [MultiGroups(groups_files, gene_threshold, species_threshold,
    project_prefix)]; [groups_files] may be [None]. *)
Definition __init__ (groups_files : option (list string))
    (gene_threshold species_threshold : option Z) (project_prefix : string)
  : SE World t :=
  (let* built :=
     init_loop (default [] groups_files) gene_threshold species_threshold [] in
   ret (mk gene_threshold species_threshold project_prefix built))%se.

Definition set_multiple_groups (l : list Group.t) (self : t) : t :=
  mk (gene_threshold self) (species_threshold self) (prefix self) l.

Definition add_group (group_obj : Group.t) : SE (t * World) unit :=
  modify_self (fun self =>
    set_multiple_groups (multiple_groups self ++ [group_obj]) self).

Definition add_multigroups (multigroup_obj : t) : SE (t * World) unit :=
  modify_self (fun self =>
    set_multiple_groups
      (multiple_groups self ++ multiple_groups multigroup_obj) self).







End MultiGroups.

(** ** Notions of the specification *)

Module Spec.

(** The text of [s] before the first [sep], all of [s] when it has none. *)
Fixpoint before (sep : ascii) (s : string) : string :=
  match s with
  | EmptyString => EmptyString
  | String c s' =>
      if Ascii.eqb c sep then EmptyString else String c (before sep s')
  end.

(** The specification's frequency of a species code: the number of
    sequence identifiers whose species code it is. *)
Definition species_frequency (sequences : list string) (species : string)
  : nat :=
  length (filter (fun id => before "|" id = species) sequences).

(** The clusters a sequence of [apply_filter] calls can produce from a
    constructed one, whether the calls return or raise. *)
Inductive constructed : Cluster.t -> Prop :=
  | constructed_init line c :
      Cluster.__init__ line = Ok c -> constructed c
  | constructed_apply_filter c g s :
      constructed c -> constructed (fst (Cluster.apply_filter g s c)).

(** The states of a group and its world after construction followed by
    any calls of [apply_filter] on its clusters and of
    [update_filtered_group]. *)
Inductive reachable : Group.t * World -> Prop :=
  | reachable_init groups_file gt st prefix w w' self :
      Group.__init__ groups_file gt st prefix w = (w', Ok self) ->
      reachable (self, w')
  | reachable_apply_filter self w l g s :
      reachable (self, w) -> l ∈ Group.groups self ->
      reachable (self, fst (on_cluster l (Cluster.apply_filter g s) w))
  | reachable_update st :
      reachable st -> reachable (fst (Group.update_filtered_group st)).

(** The clusters of [refs] whose two flags are true, in order. *)
Definition doubly_compliant (w : World) (refs : list nat) : list nat :=
  filter (fun l => Cluster.both_compliant (heap w !!! l) = true) refs.

(** How the constructor of a group leaves the cluster of a line: as
    [apply_filter] returns it when the thresholds [th] are in force, as
    parsed otherwise. *)
Definition parsed_as (th : option (Z * Z)) (line : string) (c : Cluster.t)
  : Prop :=
  match th with
  | Some (g, s) =>
      ∃ c0, Cluster.__init__ line = Ok c0
            ∧ Cluster.apply_filter g s c0 = (c, Ok tt)
  | None => Cluster.__init__ line = Ok c
  end.

(** The clusters of a group, as values. *)
Definition clusters (w : World) (g : Group.t) : list Cluster.t :=
  map (fun l => heap w !!! l) (Group.groups g).

(** The set of sequence identifiers of a cluster. *)
Definition identifiers (w : World) (l : nat) : gset string :=
  list_to_set (Cluster.sequences (heap w !!! l)).

(** The number of clusters of [g1] whose set of identifiers is exactly
    the set of identifiers of some cluster of [g2]. *)
Definition exact_matches (w : World) (g1 g2 : Group.t) : nat :=
  length (filter (fun l1 =>
                    Exists (fun l2 => identifiers w l1 = identifiers w l2)
                           (Group.groups g2))
                 (Group.groups g1)).

(** The texts of [l] one after the other. *)
Definition concat (l : list string) : string :=
  foldr String.append EmptyString l.


(** No character of [s] is whitespace. *)
Fixpoint no_space (s : string) : bool :=
  match s with
  | EmptyString => true
  | String c s' => negb (Py.isspace c) && no_space s'
  end.

(** A token: a text that is not empty and has no whitespace. *)
Definition token (t : string) : Prop :=
  Py.is_empty t = false ∧ no_space t = true.

(** The clusters behind [refs] whose species flag, gene flag, or both
    flags are true: how many there are. *)
Definition species_count (w : World) (refs : list nat) : nat :=
  length (filter (fun l =>
            truthy (Cluster.species_compliant (heap w !!! l)) = true) refs).
Definition gene_count (w : World) (refs : list nat) : nat :=
  length (filter (fun l =>
            truthy (Cluster.gene_compliant (heap w !!! l)) = true) refs).
Definition both_count (w : World) (refs : list nat) : nat :=
  length (doubly_compliant w refs).

(** The number of sequences of the clusters behind [refs]. *)
Definition sequence_count (w : World) (refs : list nat) : nat :=
  sum_list (map (fun l => length (Cluster.sequences (heap w !!! l))) refs).

(** The file [retrieve_fasta] writes for a cluster, and its text when the
    database [db] knows every sequence of the cluster. *)
Definition fasta_path (c : Cluster.t) : string :=
  Py.path_join "Orthologs" (Cluster.name c +:+ ".fas").

Definition fasta_entry (db : gmap string string) (sequence_id : string)
  : string :=
  ">" +:+ Cluster.species_code sequence_id +:+ Py.nl
  +:+ default EmptyString (db !! sequence_id) +:+ Py.nl.

Definition fasta_text (db : gmap string string) (c : Cluster.t) : string :=
  concat (map (fasta_entry db) (Cluster.sequences c)).

(** The body of the loop of [retrieve_fasta] over the clusters. *)
Definition write_cluster (db_aln : gmap string string) (l : nat)
  : SE (Group.t * World) unit :=
  (let* cluster := in_world (deref l) in
   let path := Py.path_join "Orthologs" (Cluster.name cluster +:+ ".fas") in
   in_world (open_w_checked path);;
   in_world (for_each (Cluster.sequences cluster)
                      (Group.fasta_record db_aln path)))%se.

(** The files after [retrieve_fasta] has written the clusters [refs] one
    after the other, each file replacing what was at its path. *)
Definition fasta_files (db : gmap string string) (w : World)
    (refs : list nat) (f : gmap string string) : gmap string string :=
  foldl (fun f l => <[fasta_path (heap w !!! l)
                      := fasta_text db (heap w !!! l)]> f) f refs.

(** The world when [retrieve_fasta] reaches its test of the database: the
    filtered sequences are printed when [filt] is true, and the directory
    [Orthologs] exists. *)
Definition prepared (filt : bool) (self : Group.t) (w : World) : World :=
  let w1 :=
    if filt
    then fst (print (Py.str_list
                (map (fun l => Py.str_list
                        (map Py.repr (Cluster.sequences (heap w !!! l))))
                     (Group.filtered_groups self))) w)
    else w in
  if bool_decide ("Orthologs" ∈ dirs w1)
     || bool_decide (is_Some (files w1 !! "Orthologs"))
  then w1 else fst (makedirs "Orthologs" w1).









(** A cluster within the thresholds, as its [species_frequency] tells: at
    least [s] species, and no frequency above [g]. *)
Definition within (g s : Z) (c : Cluster.t) : Prop :=
  (s ≤ Z.of_nat (size (Cluster.species_frequency c)))%Z
  ∧ map_Forall (fun _ f => (Z.of_nat f ≤ g)%Z) (Cluster.species_frequency c).

#[global] Instance within_dec g s c : Decision (within g s c).
Proof. unfold within. apply _. Defined.

(** A cluster name of which [retrieve_fasta] can make a file name: it has
    no slash and no NUL character, and with the four bytes of [.fas] it has
    at most 255 bytes. *)
Definition file_name (name : string) : bool :=
  negb (Py.contains "/" name) && negb (Py.contains Py.nul name)
  && Nat.leb (Py.utf8_length name) 251.

(** A cluster whose file [retrieve_fasta] can create in the directory
    [Orthologs]: a file name can be made of its name, and no directory has
    the path of the file. *)
Definition creatable (w : World) (c : Cluster.t) : bool :=
  file_name (Cluster.name c) && negb (bool_decide (fasta_path c ∈ dirs w)).

(** The dictionary [parse_string] builds from the list of sequences. *)
Definition frequency_of (sequences : list string) : gmap string nat :=
  set_to_map
    (fun species =>
       (species, Py.count (Py.str_list (map Py.repr sequences)) species))
    (list_to_set (map Cluster.species_code sequences) : gset string).

End Spec.

(** ** Example inputs *)

Module Examples.

(** A groups file with one cluster of two species. *)
Definition one_cluster : World :=
  mkWorld [] {[ "groups.txt" := "G1: a|x b|y" +:+ Py.nl ]} ∅ EmptyString.

(** A groups file with three clusters. *)
Definition three_clusters : World :=
  mkWorld []
    {[ "groups.txt" := "G1: a|x b|y" +:+ Py.nl
                       +:+ "G2: a|z a|w b|y" +:+ Py.nl
                       +:+ "G3: c|x" +:+ Py.nl ]}
    ∅ EmptyString.

(** Two clusters in the store, and two groups that hold both of them. *)
Definition two_clusters : World :=
  mkWorld [Cluster.mk "G1" ["a|x"; "b|y"] {[ "a" := 1; "b" := 1 ]} None None;
           Cluster.mk "G2" ["a|z"] {[ "a" := 1 ]} None None]
          ∅ ∅ EmptyString.

Definition both_clusters : Group.t :=
  Group.mk None None "groups.txt" "MyGroups" [0; 1] [] (Some "groups.txt")
           ["a"; "b"].

Definition twice : MultiGroups.t :=
  MultiGroups.mk None None "MyGroups" [both_clusters; both_clusters].

End Examples.

(** * Properties *)

(** ** Strings *)

Section strings.

Implicit Types (s a b rest : string) (sep c : ascii).

Lemma append_nil s : EmptyString +:+ s = s.
Proof. reflexivity. Qed.

Lemma append_cons c s a : String c s +:+ a = String c (s +:+ a).
Proof. reflexivity. Qed.

Lemma append_empty_r s : s +:+ EmptyString = s.
Proof.
  induction s as [|c s IH]; [done |]. by rewrite append_cons, IH.
Qed.

Lemma append_assoc s a b : (s +:+ a) +:+ b = s +:+ (a +:+ b).
Proof.
  induction s as [|c s IH]; [done |]. by rewrite !append_cons, IH.
Qed.

Lemma split_head sep s : ∃ xs, Py.split sep s = Spec.before sep s :: xs.
Proof.
  induction s as [|c s [xs IH]]; simpl; [by eexists |].
  destruct (Ascii.eqb c sep); [by eexists |].
  rewrite IH. by eexists.
Qed.

Lemma species_code_before s : Cluster.species_code s = Spec.before "|" s.
Proof.
  unfold Cluster.species_code. by destruct (split_head "|" s) as [xs ->].
Qed.

Lemma split_no_sep sep s : Py.contains sep s = false → Py.split sep s = [s].
Proof.
  induction s as [|c s IH]; simpl; [done |].
  destruct (Ascii.eqb c sep); simpl; [done |].
  intros H. by rewrite (IH H).
Qed.

Lemma split_app sep a rest :
  Py.contains sep a = false →
  Py.split sep (a +:+ String sep rest) = a :: Py.split sep rest.
Proof.
  induction a as [|c a IH]; rewrite ?append_nil, ?append_cons; simpl.
  - intros _. by rewrite Ascii.eqb_refl.
  - destruct (Ascii.eqb c sep); simpl; [done |].
    intros H. by rewrite (IH H).
Qed.

Lemma before_app sep a rest :
  Py.contains sep a = false → Spec.before sep (a +:+ String sep rest) = a.
Proof.
  induction a as [|c a IH]; rewrite ?append_nil, ?append_cons; simpl.
  - by rewrite Ascii.eqb_refl.
  - destruct (Ascii.eqb c sep); simpl; [done |].
    intros H. by rewrite (IH H).
Qed.

Lemma contains_decompose sep s :
  Py.contains sep s = true →
  ∃ a rest, s = a +:+ String sep rest ∧ Py.contains sep a = false.
Proof.
  induction s as [|c s IH]; simpl; [done |].
  destruct (Ascii.eqb_spec c sep) as [->|Hne]; simpl.
  - intros _. by exists EmptyString, s.
  - intros H. destruct (IH H) as (a & rest & -> & Ha).
    exists (String c a), rest. split; [done |]. simpl.
    rewrite Ha. by destruct (Ascii.eqb_spec c sep).
Qed.

(** [s.count(c)] for a one-character [c] and membership of [c]. *)
Lemma count_char_app c a rest :
  Py.contains c a = false →
  Py.count (a +:+ String c rest) (String c EmptyString)
  = S (Py.count rest (String c EmptyString)).
Proof.
  unfold Py.count. simpl.
  induction a as [|c' a IH]; rewrite ?append_nil, ?append_cons; simpl.
  - by rewrite Ascii.eqb_refl.
  - destruct (Ascii.eqb c' c); simpl; [done |]. auto.
Qed.

Lemma count_char_pos c s :
  0 < Py.count s (String c EmptyString) → Py.contains c s = true.
Proof.
  intros H. destruct (Py.contains c s) eqn:E; [done |].
  unfold Py.count in H. simpl in H. exfalso.
  induction s as [|c' s IH]; simpl in *; [lia |].
  destruct (Ascii.eqb c' c); simpl in *; [done |]. auto.
Qed.

End strings.

(** ** Cluster *)

Section cluster.

Implicit Types (c : Cluster.t) (line a b rest : string).

Lemma parse_string_colon a rest :
  Py.contains ":" a = false →
  Cluster.__init__ (a +:+ String ":" rest)
  = let sequences := Py.split_ws (Py.strip (Spec.before ":" rest)) in
    Ok (Cluster.mk (Py.strip a) sequences
          (set_to_map
             (fun species =>
                (species,
                 Py.count (Py.str_list (map Py.repr sequences)) species))
             (list_to_set (map Cluster.species_code sequences) : gset string))
          None None).
Proof.
  intros Ha. unfold Cluster.__init__, Cluster.parse_string.
  rewrite (split_app _ _ _ Ha).
  by destruct (split_head ":" rest) as [xs ->].
Qed.

Lemma init_no_colon line :
  Py.contains ":" line = false → Cluster.__init__ line = Raise IndexError.
Proof.
  intros H. unfold Cluster.__init__, Cluster.parse_string.
  by rewrite (split_no_sep _ _ H).
Qed.

Lemma before_no_sep sep s :
  Py.contains sep s = false → Spec.before sep s = s.
Proof.
  induction s as [|c s IH]; simpl; [done |].
  destruct (Ascii.eqb c sep); simpl; [done |].
  intros H. by rewrite (IH H).
Qed.

(** The example line of the specification. *)
Lemma parse_example :
  ∃ c, Cluster.__init__ "G1: sp1|a sp1|b sp2|c" = Ok c
       ∧ Cluster.name c = "G1"
       ∧ Cluster.sequences c = ["sp1|a"; "sp1|b"; "sp2|c"]
       ∧ Cluster.species_frequency c = {[ "sp1" := 2; "sp2" := 1 ]}
       ∧ Cluster.gene_compliant c = None
       ∧ Cluster.species_compliant c = None.
Proof. eexists. split; [vm_compute; reflexivity |]. by vm_compute. Qed.

Lemma apply_filter_species_frequency c g s :
  Cluster.species_frequency (fst (Cluster.apply_filter g s c))
  = Cluster.species_frequency c.
Proof.
  unfold Cluster.apply_filter, bind, get, modify, lift_result. simpl.
  destruct (Z.geb _ _); simpl;
    destruct (Py.max _); simpl; try done;
    by destruct (Z.leb _ _).
Qed.

Lemma apply_filter_empty c g s :
  Cluster.species_frequency c = ∅ →
  Cluster.apply_filter g s c
  = (Cluster.set_species_compliant (Z.leb s 0) c, Raise ValueError).
Proof.
  intros H.
  unfold Cluster.apply_filter, bind, get, modify, lift_result,
    Cluster.values. simpl.
  rewrite H, map_to_list_empty, map_size_empty. simpl.
  rewrite Z.geb_leb. change (Z.of_nat 0) with 0%Z.
  by destruct (Z.leb s 0).
Qed.

Lemma constructed_empty_gene_unset c :
  Spec.constructed c → Cluster.species_frequency c = ∅ →
  Cluster.gene_compliant c = None.
Proof.
  induction 1 as [line c Hinit | c g s Hc IH].
  - intros _. unfold Cluster.__init__ in Hinit.
    destruct (Cluster.parse_string line) as [[[n sq] f]|]; [|done].
    by inversion Hinit.
  - rewrite apply_filter_species_frequency. intros He.
    rewrite (apply_filter_empty _ _ _ He). simpl. auto.
Qed.

End cluster.

(** C1. On the line [G1: sp1|a sp11|b] the frequency recorded for species
    [sp1] is 2, the number of times the text [sp1] occurs in the printed
    list of identifiers, although one identifier only has that species
    code. *)
Theorem C1_frequency_counts_substrings :
  ∃ c, Cluster.__init__ "G1: sp1|a sp11|b" = Ok c
       ∧ Cluster.sequences c = ["sp1|a"; "sp11|b"]
       ∧ Cluster.species_frequency c !! "sp1" = Some 2
       ∧ Spec.species_frequency (Cluster.sequences c) "sp1" = 1.
Proof. eexists. split; [vm_compute; reflexivity |]. by vm_compute. Qed.

(** C5 (amended). Parsing a line without a colon raises IndexError; a line
    with a colon is accepted whatever its name portion, empty included, and
    the name is the trimmed text before the first colon. *)
Theorem C5_no_colon_raises_empty_name_accepted (line : string) :
  (Py.contains ":" line = false → Cluster.__init__ line = Raise IndexError)
  ∧ (Py.contains ":" line = true →
     ∃ c, Cluster.__init__ line = Ok c
          ∧ Cluster.name c = Py.strip (Spec.before ":" line)).
Proof.
  split; [apply init_no_colon |].
  intros H. destruct (contains_decompose _ _ H) as (a & rest & -> & Ha).
  rewrite (parse_string_colon _ _ Ha), (before_app _ _ _ Ha).
  by eexists.
Qed.

Lemma C5_no_colon_raises_empty_name_accepted_witness :
  Cluster.__init__ "G1 sp1|a" = Raise IndexError
  ∧ ∃ c, Cluster.__init__ ": sp1|a" = Ok c
         ∧ Cluster.name c = Py.strip (Spec.before ":" ": sp1|a").
Proof.
  split.
  - apply (proj1 (C5_no_colon_raises_empty_name_accepted "G1 sp1|a")).
    reflexivity.
  - apply (proj2 (C5_no_colon_raises_empty_name_accepted ": sp1|a")).
    reflexivity.
Defined.

(** C5, as stated, fails: the name portion of the line [: sp1|a] is empty
    and the line is parsed, with an empty name. *)
Lemma C5_empty_name_counterexample :
  Py.strip (Spec.before ":" ": sp1|a") = EmptyString
  ∧ Cluster.__init__ ": sp1|a"
    = Ok (Cluster.mk EmptyString ["sp1|a"] {[ "sp1" := 1 ]} None None).
Proof. split; vm_compute; reflexivity. Qed.

(** C8. A line with more than one colon is made of a part [a] before the
    first colon, a part [b] between the first two colons and a rest [c];
    parsing succeeds, the sequences are the whitespace-delimited tokens of
    [b], and the result is the one of the line cut before the second
    colon. *)
Theorem C8_text_after_second_colon_dropped (line : string) :
  2 ≤ Py.count line ":" →
  ∃ a b c cl,
    line = a +:+ ":" +:+ b +:+ ":" +:+ c
    ∧ Py.contains ":" a = false ∧ Py.contains ":" b = false
    ∧ Cluster.__init__ line = Ok cl
    ∧ Cluster.name cl = Py.strip a
    ∧ Cluster.sequences cl = Py.split_ws (Py.strip b)
    ∧ Cluster.__init__ (a +:+ ":" +:+ b) = Ok cl.
Proof.
  intros H.
  destruct (contains_decompose ":" line) as (a & rest & -> & Ha);
    [apply count_char_pos; lia |].
  rewrite (count_char_app _ _ _ Ha) in H.
  destruct (contains_decompose ":" rest) as (b & c & -> & Hb);
    [apply count_char_pos; lia |].
  exists a, b, c. eexists. split; [done |]. split; [done |]. split; [done |].
  change (":" +:+ b +:+ ":" +:+ c) with (String ":" (b +:+ String ":" c)).
  change (":" +:+ b) with (String ":" b).
  rewrite !(parse_string_colon _ _ Ha), (before_app _ _ _ Hb),
    (before_no_sep _ _ Hb).
  simpl. done.
Qed.

Lemma C8_text_after_second_colon_dropped_witness :
  ∃ a b c cl,
    "G1: sp1|a : sp2|b" = a +:+ ":" +:+ b +:+ ":" +:+ c
    ∧ Py.contains ":" a = false ∧ Py.contains ":" b = false
    ∧ Cluster.__init__ "G1: sp1|a : sp2|b" = Ok cl
    ∧ Cluster.name cl = Py.strip a
    ∧ Cluster.sequences cl = Py.split_ws (Py.strip b)
    ∧ Cluster.__init__ (a +:+ ":" +:+ b) = Ok cl.
Proof.
  apply (C8_text_after_second_colon_dropped "G1: sp1|a : sp2|b").
  vm_compute. lia.
Defined.

(** C9. On a cluster whose [species_frequency] is empty, [apply_filter]
    with a species threshold of 0 raises ValueError (the maximum of no
    value) and leaves the cluster with [species_compliant] set to true and
    [gene_compliant] still unset. *)
Theorem C9_apply_filter_mutates_before_raising (c : Cluster.t) (g : Z) :
  Spec.constructed c → Cluster.species_frequency c = ∅ →
  ∃ c', Cluster.apply_filter g 0 c = (c', Raise ValueError)
        ∧ c' = Cluster.set_species_compliant true c
        ∧ Cluster.species_compliant c' = Some true
        ∧ Cluster.gene_compliant c' = None.
Proof.
  intros Hc He. eexists. split; [by apply apply_filter_empty |].
  split; [done |]. split; [done |]. simpl.
  by apply constructed_empty_gene_unset.
Qed.

Lemma C9_apply_filter_mutates_before_raising_witness :
  ∃ c', Cluster.apply_filter 1 0 (Cluster.mk "G1" [] ∅ None None)
        = (c', Raise ValueError)
        ∧ c' = Cluster.set_species_compliant true
                 (Cluster.mk "G1" [] ∅ None None)
        ∧ Cluster.species_compliant c' = Some true
        ∧ Cluster.gene_compliant c' = None.
Proof.
  apply (C9_apply_filter_mutates_before_raising
           (Cluster.mk "G1" [] ∅ None None) 1).
  - apply (Spec.constructed_init "G1:"). vm_compute. reflexivity.
  - reflexivity.
Defined.

(** ** Group *)

Ltac se_unfold :=
  unfold bind, ret, raise, get, modify, lift_result, get_self, modify_self,
    in_world, deref, open_w, write, print, path_exists, makedirs; simpl.

Section group.

Implicit Types (self : Group.t) (w : World) (refs : list nat).

Lemma set_files_id w : set_files (files w) w = w.
Proof. by destruct w. Qed.


End group.



(** C10. On a group whose [filtered_groups] is empty, [retrieve_fasta] with
    a dictionary as database and [filt] true returns without an error: it
    prints the empty list, creates the directory [Orthologs] when it is
    missing, and writes no file; [export_filtered_group] on the same group
    raises OrthoGroupException. *)
Theorem C10_retrieve_fasta_unfiltered_is_silent
    (Alignment : string → SE World (gmap string string))
    (self : Group.t) (w : World) (d : gmap string string)
    (out : string) (get_stats : bool) :
  Group.filtered_groups self = [] →
  ∃ w',
    Group.retrieve_fasta Alignment (Group.DbDict d) true (self, w)
    = ((self, w'), Ok tt)
    ∧ files w' = files w ∧ heap w' = heap w
    ∧ stdout w' = stdout w +:+ "[]" +:+ Py.nl
    ∧ dirs w' ⊆ {[ "Orthologs" ]} ∪ dirs w
    ∧ Group.export_filtered_group out get_stats (self, w)
      = ((self, w), Raise (OrthoGroupException Group.not_filtered)).
Proof.
  intros Hf.
  unfold Group.retrieve_fasta, Group.export_filtered_group, Group.selected.
  se_unfold. rewrite Hf. simpl.
  destruct (bool_decide ("Orthologs" ∈ dirs w)
            || bool_decide (is_Some (files w !! "Orthologs"))); simpl.
  - eexists. split; [reflexivity |]. simpl.
    split; [done |]. split; [done |]. split; [done |].
    split; [set_solver | done].
  - eexists. split; [reflexivity |]. simpl.
    split; [done |]. split; [done |]. split; [done |].
    split; [set_solver | done].
Qed.

Lemma C10_retrieve_fasta_unfiltered_is_silent_witness :
  ∃ w',
    Group.retrieve_fasta (fun _ => ret ∅) (Group.DbDict {[ "a|x" := "ACGT" ]})
      true
      (Group.mk None None "f" "MyGroups" [0] [] (Some "f") ["a"],
       mkWorld [Cluster.mk "G1" ["a|x"] {[ "a" := 1 ]} None None]
               ∅ ∅ EmptyString)
    = ((Group.mk None None "f" "MyGroups" [0] [] (Some "f") ["a"], w'), Ok tt)
    ∧ files w' = ∅.
Proof.
  destruct (C10_retrieve_fasta_unfiltered_is_silent (fun _ => ret ∅)
    (Group.mk None None "f" "MyGroups" [0] [] (Some "f") ["a"])
    (mkWorld [Cluster.mk "G1" ["a|x"] {[ "a" := 1 ]} None None]
             ∅ ∅ EmptyString)
    {[ "a|x" := "ACGT" ]} "filtered_groups" false eq_refl)
    as (w' & Heq & Hfiles & _).
  exists w'. split; [exact Heq | exact Hfiles].
Defined.

(** ** MultiGroups *)

Section multigroups.

Implicit Types (w : World) (g : Group.t).

Lemma filter_all {A} (P : A → Prop) `{!∀ x, Decision (P x)} (l : list A) :
  Forall P l → filter P l = l.
Proof.
  induction 1 as [|x l Hx Hl IH]; [done |].
  by rewrite filter_cons_True, IH.
Qed.

Lemma overlap_counter_count w (refs2 : list nat) : ∀ (refs1 : list nat) n,
  foldl (fun counter i =>
           if bool_decide (i ∈ map (Spec.identifiers w) refs2)
           then counter + 1 else counter)
        n (map (Spec.identifiers w) refs1)
  = n + length (filter (fun l1 =>
                          Exists (fun l2 => Spec.identifiers w l1
                                            = Spec.identifiers w l2) refs2)
                       refs1).
Proof.
  induction refs1 as [|l refs1 IH]; intros n; simpl; [lia |].
  rewrite IH, filter_cons.
  destruct (decide (Exists _ refs2)) as [He|He].
  - rewrite bool_decide_eq_true_2; [simpl; lia |].
    apply Exists_exists in He as (l2 & Hin & Heq).
    apply list_elem_of_fmap. eauto.
  - rewrite bool_decide_eq_false_2; [done |].
    intros Hin. apply He, Exists_exists.
    apply list_elem_of_fmap in Hin as (l2 & Heq & Hin). eauto.
Qed.

Lemma exact_matches_same w g1 g2 :
  Spec.clusters w g1 = Spec.clusters w g2 →
  Spec.exact_matches w g1 g2 = length (Group.groups g1)
  ∧ Spec.exact_matches w g1 g2 = length (Group.groups g2).
Proof.
  unfold Spec.clusters, Spec.exact_matches. intros Hsame.
  assert (Hlen : length (Group.groups g1) = length (Group.groups g2)).
  { by rewrite <- (length_map (fun l => heap w !!! l) (Group.groups g1)),
      Hsame, length_map. }
  rewrite <- Hlen. cut (∀ n m : nat, n = m → n = m ∧ n = m); [|done].
  intros Hcut. apply Hcut. clear Hcut.
  f_equal. apply filter_all.
  apply Forall_forall. intros l1 Hin. apply Exists_exists.
  apply list_elem_of_lookup in Hin as [i Hi].
  assert (Hc : map (fun l => heap w !!! l) (Group.groups g1) !! i
               = Some (heap w !!! l1)) by by rewrite list_lookup_fmap, Hi.
  rewrite Hsame, list_lookup_fmap in Hc.
  destruct (Group.groups g2 !! i) as [l2|] eqn:H2; [|done].
  exists l2. split; [by eapply list_elem_of_lookup_2 |].
  unfold Spec.identifiers. simpl in Hc. by inversion Hc.
Qed.

End multigroups.

(** C3 (amended). [group_overlap] raises SystemExit unless the object
    holds exactly two groups.  With two groups it returns nothing and
    prints the number of clusters of the first whose set of sequence
    identifiers is exactly that of some cluster of the second; when the two
    groups have the same clusters this number is the number of clusters of
    either group. *)
Theorem C3_group_overlap (self : MultiGroups.t) (w : World) :
  (length (MultiGroups.multiple_groups self) ≠ 2 →
   MultiGroups.group_overlap (self, w)
   = ((self, w), Raise (SystemExit MultiGroups.two_groups_only)))
  ∧ (∀ g1 g2,
       MultiGroups.multiple_groups self = [g1; g2] →
       MultiGroups.group_overlap (self, w)
       = ((self, fst (print (pretty (Spec.exact_matches w g1 g2)) w)), Ok tt)
       ∧ (Spec.clusters w g1 = Spec.clusters w g2 →
          Spec.exact_matches w g1 g2 = length (Group.groups g1)
          ∧ Spec.exact_matches w g1 g2 = length (Group.groups g2))).
Proof.
  split.
  - intros Hlen. unfold MultiGroups.group_overlap. se_unfold.
    by destruct (MultiGroups.multiple_groups self) as [|g1 [|g2 [|g3 rest]]].
  - intros g1 g2 Hgs. split; [|apply exact_matches_same].
    unfold MultiGroups.group_overlap, MultiGroups.parse_groups,
      MultiGroups.overlap_counter.
    se_unfold. rewrite Hgs. simpl.
    pose proof (overlap_counter_count w (Group.groups g2) (Group.groups g1) 0)
      as Hcount.
    unfold Spec.exact_matches. unfold Spec.identifiers in *.
    by rewrite Hcount.
Qed.

Lemma C3_group_overlap_witness :
  MultiGroups.group_overlap
    (MultiGroups.mk None None "MyGroups" [Examples.both_clusters],
     Examples.two_clusters)
  = ((MultiGroups.mk None None "MyGroups" [Examples.both_clusters],
      Examples.two_clusters),
     Raise (SystemExit MultiGroups.two_groups_only))
  ∧ Spec.exact_matches Examples.two_clusters
      Examples.both_clusters Examples.both_clusters = 2.
Proof.
  split.
  - apply (proj1 (C3_group_overlap
             (MultiGroups.mk None None "MyGroups" [Examples.both_clusters])
             Examples.two_clusters)).
    simpl. lia.
  - apply (proj2 (C3_group_overlap Examples.twice Examples.two_clusters)
             Examples.both_clusters Examples.both_clusters eq_refl).
    reflexivity.
Defined.

(** C3, as stated, fails: on two identical groups of two clusters
    [group_overlap] returns no integer; the count 2 goes to the standard
    output. *)
Lemma C3_prints_counter_counterexample :
  MultiGroups.group_overlap (Examples.twice, Examples.two_clusters)
  = ((Examples.twice,
      mkWorld (heap Examples.two_clusters) ∅ ∅ ("2" +:+ Py.nl)), Ok tt).
Proof. vm_compute. reflexivity. Qed.

(** ** Paralogs per species *)

Section paralogs.

Implicit Types (c : Cluster.t) (d : list (string * nat)) (sp : string).

Lemma dict_set_keys_in k v d : k ∈ d.*1 → (Group.dict_set k v d).*1 = d.*1.
Proof.
  induction d as [|[k' v'] d IH]; simpl.
  - by intros ?%elem_of_nil.
  - intros Hin. destruct (String.eqb_spec k' k) as [->|Hne]; [done |].
    simpl. f_equal. apply IH.
    apply elem_of_cons in Hin as [?|?]; [congruence | done].
Qed.

Lemma dict_set_keys_elem k v d sp :
  sp ∈ d.*1 ∨ sp = k → sp ∈ (Group.dict_set k v d).*1.
Proof.
  induction d as [|[k' v'] d IH]; simpl.
  - intros [?%elem_of_nil | ->]; [done | by left].
  - destruct (String.eqb_spec k' k) as [->|Hne]; simpl.
    + intros [H | ->]; [done | by left].
    + intros [H | ->].
      * apply elem_of_cons in H as [-> | H]; [by left | right; auto].
      * right. auto.
Qed.

Lemma initial_paralog_count_keys (species_list : list string) sp :
  sp ∈ species_list →
  sp ∈ (foldl (fun d species => Group.dict_set species 0 d) []
              species_list).*1.
Proof.
  cut (∀ d, sp ∈ d.*1 ∨ sp ∈ species_list →
            sp ∈ (foldl (fun d species => Group.dict_set species 0 d) d
                        species_list).*1); [by auto |].
  induction species_list as [|k l IH]; simpl; intros d.
  - intros [? | ?%elem_of_nil]; done.
  - intros [H | H]; apply IH.
    + left. apply dict_set_keys_elem. by left.
    + apply elem_of_cons in H as [-> | H]; [|by right].
      left. apply dict_set_keys_elem. by right.
Qed.

Lemma paralog_species_missing c sp species :
  sp ∈ species → Cluster.species_frequency c !! sp = None →
  ∀ d, Group.paralog_species c species d = Raise KeyError.
Proof.
  intros Hin Hnone.
  induction species as [|sp0 species IH]; [by apply elem_of_nil in Hin |].
  intros d. simpl.
  destruct (Cluster.species_frequency c !! sp0) as [f|] eqn:Hf; [|done].
  apply IH. apply elem_of_cons in Hin as [-> | Hin]; [congruence | done].
Qed.

Lemma paralog_species_result c species : ∀ d,
  Forall (fun sp => sp ∈ d.*1) species →
  Group.paralog_species c species d = Raise KeyError
  ∨ ∃ d', Group.paralog_species c species d = Ok d' ∧ d'.*1 = d.*1.
Proof.
  induction species as [|sp species IH]; intros d Hkeys; simpl.
  - right. by eexists.
  - destruct (Cluster.species_frequency c !! sp) as [f|]; [|by left].
    apply Forall_cons in Hkeys as [Hsp Hkeys].
    destruct (Nat.ltb 1 f); [|by apply IH].
    pose proof (dict_set_keys_in sp (Group.dict_get sp d + 1) d Hsp) as Hk.
    destruct (IH (Group.dict_set sp (Group.dict_get sp d + 1) d))
      as [-> | (d' & -> & Hd')]; [by rewrite Hk | by left |].
    right. exists d'. by rewrite Hd', Hk.
Qed.

Lemma paralog_clusters_missing (cs : list Cluster.t) c sp :
  c ∈ cs → Cluster.species_frequency c !! sp = None →
  ∀ d, sp ∈ d.*1 → Group.paralog_clusters cs d = Raise KeyError.
Proof.
  intros Hin Hnone.
  induction cs as [|c0 cs IH]; [by apply elem_of_nil in Hin |].
  intros d Hsp. simpl.
  destruct (paralog_species_result c0 d.*1 d) as [E | (d' & E & Hd')];
    [by apply Forall_forall | by rewrite E |].
  rewrite E.
  apply elem_of_cons in Hin as [-> | Hin].
  - pose proof (paralog_species_missing c0 sp d.*1 Hsp Hnone d). congruence.
  - apply IH; [done | by rewrite Hd'].
Qed.

End paralogs.

(** C4. [paralog_per_species_statistic] raises KeyError, and writes
    nothing, as soon as one cluster of the selected collection lacks one
    species of [species_list]: the lookup [species_frequency[species]] has
    no default. *)
Theorem C4_paralog_statistic_raises_on_absent_species
    (self : Group.t) (w : World) (out : string) (filt : bool)
    (l : nat) (species : string) :
  l ∈ Group.selected filt self →
  species ∈ Group.species_list self →
  Cluster.species_frequency (heap w !!! l) !! species = None →
  Group.paralog_per_species_statistic out filt (self, w)
  = ((self, w), Raise KeyError).
Proof.
  intros Hl Hsp Hnone.
  unfold Group.paralog_per_species_statistic. se_unfold.
  rewrite (paralog_clusters_missing _ (heap w !!! l) species); [done | | done |].
  - apply list_elem_of_fmap. eauto.
  - by apply initial_paralog_count_keys.
Qed.

Lemma C4_paralog_statistic_raises_on_absent_species_witness :
  ∃ self w,
    Group.__init__ "groups.txt" None None "MyGroups"
      (mkWorld [] {[ "groups.txt" := "G1: a|x" +:+ Py.nl +:+ "G2: b|y" +:+ Py.nl ]}
               ∅ EmptyString)
    = (w, Ok self)
    ∧ Group.species_list self = ["a"; "b"]
    ∧ Group.paralog_per_species_statistic "Paralog_per_species.csv" false
        (self, w)
      = ((self, w), Raise KeyError).
Proof.
  eexists. eexists. split; [vm_compute; reflexivity |].
  split; [reflexivity |].
  apply (C4_paralog_statistic_raises_on_absent_species _ _ _ _ 0 "b").
  - simpl. left.
  - simpl. right. left.
  - vm_compute. reflexivity.
Defined.

(** ** Construction of a group *)

Section construction.

Implicit Types (self : Group.t) (w : World) (c : Cluster.t).

Lemma insert_last c c' (h : list Cluster.t) :
  <[length h := c']> (h ++ [c]) = h ++ [c'].
Proof.
  rewrite <- (Nat.add_0_r (length h)). by rewrite insert_app_r.
Qed.

Lemma parse_line_ok line self w self' w' :
  Group.parse_line line (self, w) = ((self', w'), Ok tt) →
  ∃ c,
    Spec.parsed_as (Group.thresholds self) line c
    ∧ w' = set_heap (heap w ++ [c]) w
    ∧ Group.groups self' = Group.groups self ++ [length (heap w)]
    ∧ Group.filtered_groups self'
      = Group.filtered_groups self
        ++ match Group.thresholds self with
           | Some _ =>
               if Cluster.both_compliant c then [length (heap w)] else []
           | None => []
           end
    ∧ Group.gene_threshold self' = Group.gene_threshold self
    ∧ Group.species_threshold self' = Group.species_threshold self.
Proof.
  unfold Group.parse_line, new_Cluster, on_cluster. se_unfold.
  destruct (Cluster.__init__ line) as [c0|e] eqn:Hinit; simpl; [|done].
  rewrite (list_lookup_total_middle _ [] c0) by done.
  change (Group.thresholds (Group.set_species_list _ (Group.set_groups _ self)))
    with (Group.thresholds self).
  destruct (Group.thresholds self) as [[g s]|] eqn:Hth; simpl.
  - rewrite (list_lookup_total_middle _ [] c0) by done.
    destruct (Cluster.apply_filter g s c0) as [c r] eqn:Hf. simpl.
    destruct r as [[]|e]; simpl; [|done].
    rewrite insert_last, (list_lookup_total_middle _ [] c) by done.
    destruct (Cluster.both_compliant c) eqn:Hb; simpl;
      intros [= <- <-]; exists c; simpl.
    all: split; [by exists c0 |]; split; [done |]; split; [done |];
      split; [by rewrite Hb, ?app_nil_r | done].
  - intros [= <- <-]. exists c0. simpl. by rewrite app_nil_r.
Qed.

Lemma set_heap_id w : set_heap (heap w) w = w.
Proof. by destruct w. Qed.

Lemma parse_lines_ok lines : ∀ self w self' w',
  for_each lines Group.parse_line (self, w) = ((self', w'), Ok tt) →
  ∃ cs,
    Forall2 (Spec.parsed_as (Group.thresholds self)) lines cs
    ∧ w' = set_heap (heap w ++ cs) w
    ∧ Group.groups self'
      = Group.groups self ++ seq (length (heap w)) (length cs)
    ∧ Group.filtered_groups self'
      = Group.filtered_groups self
        ++ match Group.thresholds self with
           | Some _ =>
               Spec.doubly_compliant w' (seq (length (heap w)) (length cs))
           | None => []
           end
    ∧ Group.gene_threshold self' = Group.gene_threshold self
    ∧ Group.species_threshold self' = Group.species_threshold self.
Proof.
  induction lines as [|line lines IH]; intros self w self' w'; simpl.
  - unfold ret. intros [= <- <-]. exists []. simpl.
    rewrite !app_nil_r, set_heap_id.
    split; [constructor |]. split; [done |]. split; [done |].
    split; [|done].
    destruct (Group.thresholds self); simpl; by rewrite app_nil_r.
  - unfold bind at 1.
    destruct (Group.parse_line line (self, w)) as [[self1 w1] [[]|e]] eqn:Hl;
      [|done].
    intros Hrest.
    apply parse_line_ok in Hl as (c & Hc & -> & Hg & Hf & Hgt & Hst).
    apply IH in Hrest as (cs & Hcs & -> & Hg' & Hf' & Hgt' & Hst').
    assert (Hth : Group.thresholds self1 = Group.thresholds self)
      by (unfold Group.thresholds; by rewrite Hgt, Hst).
    exists (c :: cs). simpl in *.
    rewrite length_app, Nat.add_1_r in Hg', Hf'. simpl in *.
    rewrite <- !app_assoc in *. simpl in *.
    split; [constructor; [done | by rewrite <- Hth] |].
    split; [done |].
    split; [by rewrite Hg', Hg, <- app_assoc |].
    split; [|split; congruence].
    rewrite Hf', Hf, Hth, <- app_assoc. f_equal.
    destruct (Group.thresholds self); [|done].
    unfold Spec.doubly_compliant. simpl. rewrite filter_cons. simpl.
    rewrite (list_lookup_total_middle (heap w) cs c) by done.
    by destruct (Cluster.both_compliant c).
Qed.

Lemma clusters_of_new (cs h : list Cluster.t) :
  map (fun l => (h ++ cs) !!! l) (seq (length h) (length cs)) = cs.
Proof.
  revert h. induction cs as [|c cs IH]; intros h; simpl; [done |].
  rewrite (list_lookup_total_middle h cs c) by done. f_equal.
  specialize (IH (h ++ [c])).
  by rewrite length_app, Nat.add_1_r, <- app_assoc in IH.
Qed.

Lemma init_ok groups_file gt st prefix w w' self :
  Group.__init__ groups_file gt st prefix w = (w', Ok self) →
  ∃ text cs,
    files w !! groups_file = Some text
    ∧ Forall2 (Spec.parsed_as (Group.thresholds self))
              (Py.readlines text) cs
    ∧ w' = set_heap (heap w ++ cs) w
    ∧ Group.groups self = seq (length (heap w)) (length cs)
    ∧ Group.filtered_groups self
      = match Group.thresholds self with
        | Some _ => Spec.doubly_compliant w' (Group.groups self)
        | None => []
        end
    ∧ Group.gene_threshold self = gt
    ∧ Group.species_threshold self = st.
Proof.
  unfold Group.__init__, Group.__parse_groups, open_r.
  unfold bind at 1 2 3. unfold modify_self at 1 2, in_world at 1.
  cbn [fst snd].
  destruct (files w !! groups_file) as [text|] eqn:Hfile; [|done].
  match goal with |- context [for_each _ _ ?s] =>
    destruct (for_each (Py.readlines text) Group.parse_line s)
      as [[self1 w1] [[]|e]] eqn:Hloop; [|done]
  end.
  intros [= -> ->].
  apply parse_lines_ok in Hloop as (cs & Hcs & -> & Hg & Hf & Hgt & Hst).
  simpl in Hg, Hf, Hgt, Hst.
  assert (Hth : Group.thresholds self = Group.thresholds
            (Group.set_species_list []
               (Group.set_name (Some groups_file)
                  (Group.mk gt st groups_file prefix [] [] None []))))
    by (unfold Group.thresholds; by rewrite Hgt, Hst).
  exists text, cs. split; [done |].
  split; [by rewrite Hth |]. split; [done |]. split; [done |].
  split; [by rewrite Hf, Hth, Hg | done].
Qed.

Lemma init_flags_unset line c :
  Cluster.__init__ line = Ok c →
  Cluster.gene_compliant c = None ∧ Cluster.species_compliant c = None.
Proof.
  unfold Cluster.__init__.
  destruct (Cluster.parse_string line) as [[[n sq] f]|]; [|done].
  by intros [= <-].
Qed.

Lemma update_loop (P : nat → bool) (refs : list nat) : ∀ updated,
  foldl (fun updated l => if P l then updated ++ [l] else updated)
        updated refs
  = updated ++ filter (fun l => P l = true) refs.
Proof.
  induction refs as [|l refs IH]; intros updated; simpl.
  - by rewrite app_nil_r.
  - rewrite IH, filter_cons. destruct (P l) eqn:E; simpl; [|done].
    by rewrite <- app_assoc.
Qed.

Lemma update_filtered_group_spec self w :
  Group.update_filtered_group (self, w)
  = ((Group.set_filtered_groups
        (Spec.doubly_compliant w (Group.groups self)) self, w), Ok tt).
Proof.
  unfold Group.update_filtered_group. se_unfold.
  by rewrite (update_loop (fun l => Cluster.both_compliant (heap w !!! l))).
Qed.

Lemma reachable_sublist st :
  Spec.reachable st →
  sublist (Group.filtered_groups (fst st)) (Group.groups (fst st)).
Proof.
  induction 1 as [groups_file gt th prefix w w' self Hinit
                 | self w l g s Hr IH Hl | st Hr IH].
  - simpl. apply init_ok in Hinit as (text & cs & _ & _ & _ & _ & -> & _).
    destruct (Group.thresholds self); [apply sublist_filter |].
    apply sublist_nil_l.
  - exact IH.
  - destruct st as [self w]. rewrite update_filtered_group_spec. simpl.
    apply sublist_filter.
Qed.

End construction.

Section flags.

Lemma filter_none {A} (P : A → Prop) `{!∀ x, Decision (P x)} (l : list A) :
  Forall (fun x => ¬ P x) l → filter P l = [].
Proof.
  induction 1 as [|x l Hx Hl IH]; [done |].
  by rewrite filter_cons_False.
Qed.



Lemma unfiltered_flags lines (cs : list Cluster.t) :
  Forall2 (Spec.parsed_as None) lines cs →
  Forall (fun c => Cluster.gene_compliant c = None
                   ∧ Cluster.species_compliant c = None) cs.
Proof.
  induction 1 as [|line c lines cs Hc _ IH]; constructor; [|done].
  by apply (init_flags_unset line).
Qed.

Lemma unfiltered_none_compliant (w : World) (refs : list nat) :
  Forall (fun c => Cluster.gene_compliant c = None
                   ∧ Cluster.species_compliant c = None)
         (map (fun l => heap w !!! l) refs) →
  Spec.doubly_compliant w refs = [].
Proof.
  intros H. apply filter_none. apply Forall_fmap in H.
  eapply Forall_impl; [exact H |]. simpl.
  intros l [Hg Hs]. unfold Cluster.both_compliant. by rewrite Hg, Hs.
Qed.

End flags.

(** C7 (amended). In every state reached by constructing a group and then
    calling [apply_filter] on its clusters and [update_filtered_group],
    [filtered_groups] is a subsequence of [groups] in the same order.  Right
    after the construction, and right after [update_filtered_group], it
    holds exactly the clusters whose two flags are true. *)
Theorem C7_filtered_groups_subsequence :
  (∀ st, Spec.reachable st →
     sublist (Group.filtered_groups (fst st)) (Group.groups (fst st))
     ∧ ∃ self',
         Group.update_filtered_group st = ((self', snd st), Ok tt)
         ∧ Group.groups self' = Group.groups (fst st)
         ∧ Group.filtered_groups self'
           = Spec.doubly_compliant (snd st) (Group.groups (fst st)))
  ∧ (∀ groups_file gt th prefix w w' self,
       Group.__init__ groups_file gt th prefix w = (w', Ok self) →
       Group.filtered_groups self
       = Spec.doubly_compliant w' (Group.groups self)).
Proof.
  split.
  - intros [self w] Hr. split; [by apply (reachable_sublist (self, w)) |].
    rewrite update_filtered_group_spec. by eexists.
  - intros groups_file gt th prefix w w' self Hinit.
    apply init_ok in Hinit
      as (text & cs & Hfile & Hcs & -> & Hg & Hf & _ & _).
    destruct (Group.thresholds self); [done |].
    rewrite Hf. symmetry. apply unfiltered_none_compliant.
    rewrite Hg. simpl. rewrite clusters_of_new.
    by eapply unfiltered_flags.
Qed.

Lemma C7_filtered_groups_subsequence_witness :
  ∃ self w,
    Spec.reachable (self, w)
    ∧ Group.groups self = [0; 1; 2]
    ∧ sublist (Group.filtered_groups self) (Group.groups self).
Proof.
  eexists. eexists.
  match goal with |- ?A ∧ _ =>
    assert (H : A)
      by (eapply (Spec.reachable_init "groups.txt" (Some 1%Z) (Some 2%Z)
                    "MyGroups" Examples.three_clusters);
          vm_compute; reflexivity)
  end.
  split; [exact H |]. split; [reflexivity |].
  exact (proj1 (proj1 C7_filtered_groups_subsequence _ H)).
Defined.

(** C7, as stated, fails: after a construction with thresholds (1, 2) that
    puts the cluster in [filtered_groups], a call of [apply_filter] with a
    species threshold of 3 makes it not compliant, and [filtered_groups]
    still holds it. *)
Lemma C7_stale_after_apply_filter_counterexample :
  ∃ st,
    Spec.reachable st
    ∧ Group.groups (fst st) = [0]
    ∧ Group.filtered_groups (fst st) = [0]
    ∧ Cluster.species_compliant (heap (snd st) !!! 0) = Some false
    ∧ Spec.doubly_compliant (snd st) (Group.groups (fst st)) = [].
Proof.
  eexists (_, fst (on_cluster 0 (Cluster.apply_filter 1 3) _)).
  split.
  - eapply Spec.reachable_apply_filter.
    + eapply (Spec.reachable_init "groups.txt" (Some 1%Z) (Some 2%Z)
                "MyGroups" Examples.one_cluster).
      vm_compute. reflexivity.
    + simpl. left.
  - by vm_compute.
Qed.


(** * Further properties of the module *)

(** ** Trimming and tokens *)

Section tokens.

Implicit Types (s t cur rest : string) (c ch : ascii).

Lemma contains_app ch s t :
  Py.contains ch (s +:+ t) = Py.contains ch s || Py.contains ch t.
Proof.
  induction s as [|c s IH]; [done |].
  rewrite append_cons. simpl. rewrite IH. by rewrite orb_assoc.
Qed.

Lemma no_space_app s t :
  Spec.no_space (s +:+ t) = Spec.no_space s && Spec.no_space t.
Proof.
  induction s as [|c s IH]; [done |].
  rewrite append_cons. simpl. rewrite IH. by rewrite andb_assoc.
Qed.

Lemma is_empty_app_r s c : Py.is_empty (s +:+ String c EmptyString) = false.
Proof. by destruct s. Qed.

Lemma contains_before ch s : Py.contains ch (Spec.before ch s) = false.
Proof.
  induction s as [|c s IH]; simpl; [done |].
  destruct (Ascii.eqb c ch) eqn:E; simpl; [done |]. by rewrite E.
Qed.

Lemma contains_lstrip ch s :
  Py.contains ch s = false → Py.contains ch (Py.lstrip s) = false.
Proof.
  induction s as [|c s IH]; simpl; [done |].
  destruct (Py.isspace c); simpl; [|done].
  intros [_ H]%orb_false_elim. auto.
Qed.

Lemma contains_rstrip ch s :
  Py.contains ch s = false → Py.contains ch (Py.rstrip s) = false.
Proof.
  induction s as [|c s IH]; simpl; [done |].
  intros [Hc H]%orb_false_elim. specialize (IH H).
  destruct (Py.rstrip s) as [|a r]; simpl in *.
  - destruct (Py.isspace c); simpl; [done | by rewrite Hc].
  - by rewrite Hc, IH.
Qed.

Lemma contains_strip ch s :
  Py.contains ch s = false → Py.contains ch (Py.strip s) = false.
Proof. intros H. by apply contains_rstrip, contains_lstrip. Qed.

Lemma lstrip_cases s :
  Py.lstrip s = EmptyString
  ∨ ∃ c t, Py.lstrip s = String c t ∧ Py.isspace c = false.
Proof.
  induction s as [|c s IH]; simpl; [by left |].
  destruct (Py.isspace c) eqn:E; [done |]. right. by exists c, s.
Qed.

Lemma rstrip_head c s :
  Py.isspace c = false → ∃ r, Py.rstrip (String c s) = String c r.
Proof.
  intros E. simpl. destruct (Py.rstrip s); rewrite ?E; by eexists.
Qed.

Lemma rstrip_idem s : Py.rstrip (Py.rstrip s) = Py.rstrip s.
Proof.
  induction s as [|c s IH]; simpl; [done |].
  destruct (Py.rstrip s) as [|a r] eqn:Hr.
  - destruct (Py.isspace c) eqn:E; simpl; [done | by rewrite E].
  - change (Py.rstrip (String c (String a r)))
      with (match Py.rstrip (String a r) with
            | EmptyString =>
                if Py.isspace c then EmptyString else String c EmptyString
            | x => String c x
            end).
    by rewrite IH.
Qed.

Lemma strip_idem s : Py.strip (Py.strip s) = Py.strip s.
Proof.
  unfold Py.strip.
  destruct (lstrip_cases s) as [-> | (c & t & -> & E)]; [done |].
  destruct (rstrip_head c t E) as [r Hr]. rewrite Hr.
  simpl Py.lstrip. rewrite E, <- Hr. apply rstrip_idem.
Qed.

Lemma flush_empty (l : list string) : Py.flush EmptyString l = l.
Proof. done. Qed.

Lemma split_ws_go_rstrip s : ∀ cur,
  Py.split_ws_go cur (Py.rstrip s) = Py.split_ws_go cur s.
Proof.
  induction s as [|c s IH]; intros cur; simpl; [done |].
  destruct (Py.rstrip s) as [|a r] eqn:Hr.
  - destruct (Py.isspace c) eqn:E; simpl; rewrite ?E.
    + by rewrite <- IH.
    + by rewrite <- IH.
  - change (Py.split_ws_go cur (String c (String a r)))
      with (if Py.isspace c
            then Py.flush cur (Py.split_ws_go EmptyString (String a r))
            else Py.split_ws_go (cur +:+ String c EmptyString) (String a r)).
    by rewrite !IH.
Qed.

Lemma split_ws_lstrip s : Py.split_ws (Py.lstrip s) = Py.split_ws s.
Proof.
  unfold Py.split_ws. induction s as [|c s IH]; simpl; [done |].
  destruct (Py.isspace c) eqn:E; [by rewrite IH |].
  simpl. by rewrite E.
Qed.

Lemma split_ws_strip s : Py.split_ws (Py.strip s) = Py.split_ws s.
Proof.
  rewrite <- (split_ws_lstrip s). unfold Py.strip, Py.split_ws.
  apply split_ws_go_rstrip.
Qed.

Lemma flush_tokens cur (l : list string) :
  Spec.no_space cur = true → Forall Spec.token l →
  Forall Spec.token (Py.flush cur l).
Proof.
  intros Hc Hl. unfold Py.flush.
  destruct (Py.is_empty cur) eqn:E; [done |]. by constructor.
Qed.

Lemma split_ws_go_tokens s : ∀ cur,
  Spec.no_space cur = true → Forall Spec.token (Py.split_ws_go cur s).
Proof.
  induction s as [|c s IH]; intros cur Hc; simpl.
  - by apply flush_tokens.
  - destruct (Py.isspace c) eqn:E.
    + apply flush_tokens; [done |]. by apply IH.
    + apply IH. rewrite no_space_app, Hc. simpl. by rewrite E.
Qed.

Lemma split_ws_go_contains ch s : ∀ cur,
  Py.contains ch cur = false → Py.contains ch s = false →
  Forall (fun t => Py.contains ch t = false) (Py.split_ws_go cur s).
Proof.
  induction s as [|c s IH]; intros cur Hc Hs; simpl.
  - unfold Py.flush. destruct (Py.is_empty cur); by repeat constructor.
  - simpl in Hs. apply orb_false_elim in Hs as [Hch Hs].
    destruct (Py.isspace c).
    + unfold Py.flush. destruct (Py.is_empty cur); [by apply IH |].
      constructor; [done | by apply IH].
    + apply IH; [|done]. rewrite contains_app, Hc. simpl. by rewrite Hch.
Qed.

Lemma split_ws_go_token t : ∀ cur rest,
  Spec.no_space t = true →
  Py.split_ws_go cur (t +:+ rest) = Py.split_ws_go (cur +:+ t) rest.
Proof.
  induction t as [|c t IH]; intros cur rest Ht.
  - by rewrite append_nil, append_empty_r.
  - simpl in Ht. apply andb_prop in Ht as [Hc Ht].
    rewrite append_cons. simpl.
    apply negb_true_iff in Hc. rewrite Hc, (IH _ _ Ht), append_assoc.
    by rewrite append_cons, append_nil.
Qed.

Lemma split_ws_go_space cur c rest :
  Py.isspace c = true →
  Py.split_ws_go cur (String c rest)
  = Py.flush cur (Py.split_ws_go EmptyString rest).
Proof. intros E. simpl. by rewrite E. Qed.

Lemma split_ws_join (toks : list string) :
  Forall Spec.token toks →
  Py.split_ws (Py.join " " toks +:+ Py.nl) = toks.
Proof.
  unfold Py.split_ws.
  induction 1 as [|x toks [Hne Hx] Htoks IH]; [done |].
  destruct toks as [|y toks].
  - simpl Py.join. rewrite (split_ws_go_token x _ _ Hx), append_nil.
    simpl. unfold Py.flush. by rewrite Hne.
  - change (Py.join " " (x :: y :: toks))
      with (x +:+ " " +:+ Py.join " " (y :: toks)).
    rewrite !append_assoc, (split_ws_go_token x _ _ Hx), append_nil.
    rewrite append_cons, append_nil, split_ws_go_space by done.
    rewrite IH. unfold Py.flush. by rewrite Hne.
Qed.

Lemma contains_join ch (toks : list string) :
  Ascii.eqb " " ch = false →
  Forall (fun t => Py.contains ch t = false) toks →
  Py.contains ch (Py.join " " toks) = false.
Proof.
  intros Hsp. induction 1 as [|x toks Hx Htoks IH]; [done |].
  destruct toks as [|y toks]; [done |].
  change (Py.join " " (x :: y :: toks))
    with (x +:+ " " +:+ Py.join " " (y :: toks)).
  rewrite !contains_app, Hx, IH.
  change (Py.contains ch " ") with (Ascii.eqb " " ch || false).
  by rewrite Hsp.
Qed.

End tokens.

(** ** Parsed clusters *)

Section parsed.

Implicit Types (c : Cluster.t) (line : string).

Lemma init_shape line c :
  Cluster.__init__ line = Ok c →
  ∃ a rest,
    line = a +:+ String ":" rest ∧ Py.contains ":" a = false
    ∧ c = Cluster.mk (Py.strip a)
            (Py.split_ws (Py.strip (Spec.before ":" rest)))
            (Spec.frequency_of
               (Py.split_ws (Py.strip (Spec.before ":" rest))))
            None None.
Proof.
  intros Hinit. destruct (Py.contains ":" line) eqn:Hc.
  - destruct (contains_decompose _ _ Hc) as (a & rest & -> & Ha).
    rewrite (parse_string_colon _ _ Ha) in Hinit.
    exists a, rest. split; [done |]. split; [done |]. by inversion Hinit.
  - by rewrite (init_no_colon _ Hc) in Hinit.
Qed.

Lemma apply_filter_frame c g s :
  Cluster.name (fst (Cluster.apply_filter g s c)) = Cluster.name c
  ∧ Cluster.sequences (fst (Cluster.apply_filter g s c)) = Cluster.sequences c
  ∧ Cluster.species_frequency (fst (Cluster.apply_filter g s c))
    = Cluster.species_frequency c.
Proof.
  unfold Cluster.apply_filter, bind, get, modify, lift_result. simpl.
  destruct (Z.geb _ _); simpl;
    destruct (Py.max _); simpl; try done;
    by destruct (Z.leb _ _).
Qed.

Lemma constructed_shape c :
  Spec.constructed c →
  ∃ line c0,
    Cluster.__init__ line = Ok c0
    ∧ Cluster.name c = Cluster.name c0
    ∧ Cluster.sequences c = Cluster.sequences c0
    ∧ Cluster.species_frequency c = Cluster.species_frequency c0.
Proof.
  induction 1 as [line c Hinit | c g s Hc (line & c0 & Hinit & Hn & Hs & Hf)].
  - by exists line, c.
  - destruct (apply_filter_frame c g s) as (-> & -> & ->).
    by exists line, c0.
Qed.

Lemma frequency_of_lookup (sequences : list string) (species : string) :
  is_Some (Spec.frequency_of sequences !! species)
  ↔ ∃ id, id ∈ sequences ∧ Spec.before "|" id = species.
Proof.
  unfold Spec.frequency_of. split.
  - intros [f Hf].
    apply lookup_set_to_map in Hf as (sp & Hin & [= <- _]); [|naive_solver].
    apply elem_of_list_to_set, list_elem_of_fmap in Hin as (id & -> & Hin).
    exists id. by rewrite species_code_before.
  - intros (id & Hin & <-). eexists.
    apply lookup_set_to_map; [naive_solver |].
    exists (Spec.before "|" id). split; [|done].
    apply elem_of_list_to_set, list_elem_of_fmap.
    exists id. by rewrite species_code_before.
Qed.

Lemma frequency_of_empty (sequences : list string) :
  Spec.frequency_of sequences = ∅ ↔ sequences = [].
Proof.
  split.
  - intros He. destruct sequences as [|id l]; [done |].
    assert (is_Some (Spec.frequency_of (id :: l) !! Spec.before "|" id))
      as [f Hf].
    { apply frequency_of_lookup. exists id. split; [by left | done]. }
    by rewrite He, lookup_empty in Hf.
  - intros ->. apply map_eq. intros sp. rewrite lookup_empty.
    apply eq_None_not_Some. intros (id & Hin & _)%frequency_of_lookup.
    by apply elem_of_nil in Hin.
Qed.

Lemma max_le (g : Z) (x : nat) (l : list nat) :
  (Z.of_nat (foldr Nat.max x l) ≤ g)%Z
  ↔ Forall (fun f => (Z.of_nat f ≤ g)%Z) (x :: l).
Proof.
  induction l as [|y l IH]; simpl.
  - split; [by repeat constructor | by intros ?%Forall_inv].
  - rewrite Nat2Z.inj_max, Z.max_lub_iff, IH, !Forall_cons. tauto.
Qed.

End parsed.

Lemma values_at_most (g : Z) (m : gmap string nat) :
  Forall (fun f => (Z.of_nat f ≤ g)%Z) (map_to_list m).*2
  ↔ map_Forall (fun _ f => (Z.of_nat f ≤ g)%Z) m.
Proof.
  rewrite map_Forall_to_list.
  rewrite (Forall_fmap snd (fun f => (Z.of_nat f ≤ g)%Z)).
  apply Forall_iff. by intros [k v].
Qed.

Lemma apply_filter_eq (c : Cluster.t) (g s : Z) :
  Cluster.apply_filter g s c
  = let b := (Z.of_nat (size (Cluster.species_frequency c)) >=? s)%Z in
    match Py.max (Cluster.values c) with
    | Ok m =>
        (Cluster.mk (Cluster.name c) (Cluster.sequences c)
           (Cluster.species_frequency c) (Some (Z.of_nat m <=? g)%Z) (Some b),
         Ok tt)
    | Raise e => (Cluster.set_species_compliant b c, Raise e)
    end.
Proof.
  unfold Cluster.apply_filter, bind, get, modify, lift_result. simpl.
  destruct (Z.geb _ _); simpl;
    destruct (Py.max _); simpl; try done;
    by destruct (Z.leb _ _).
Qed.

(** ** The filter at construction *)

Section within_thresholds.

Implicit Types (c : Cluster.t) (g s : Z) (w : World).






End within_thresholds.



(** The counts of the code are not the numbers of sequences: in the cluster
    of this line each species has one sequence, and yet both frequencies
    are 2, since [hsa] and [mmu] occur twice in the printed list.  With a
    gene threshold of 1 the cluster is left out of [filtered_groups]. *)
Example substring_counts_leave_cluster_out :
  ∃ self w' c,
    Group.__init__ "groups.txt" (Some 1%Z) (Some 2%Z) "MyGroups"
      (mkWorld [] {[ "groups.txt" := "G1: hsa|hsa_001 mmu|mmu_7" +:+ Py.nl ]}
               ∅ EmptyString)
    = (w', Ok self)
    ∧ heap w' = [c]
    ∧ Cluster.sequences c = ["hsa|hsa_001"; "mmu|mmu_7"]
    ∧ Cluster.species_frequency c = {[ "hsa" := 2; "mmu" := 2 ]}
    ∧ Cluster.gene_compliant c = Some false
    ∧ Cluster.species_compliant c = Some true
    ∧ Group.filtered_groups self = [].
Proof.
  eexists. eexists. eexists.
  split; [vm_compute; reflexivity |].
  split; [reflexivity |]. by vm_compute.
Qed.


Lemma apply_filter_returns (c : Cluster.t) (g s : Z) :
  Cluster.species_frequency c ≠ ∅ →
  snd (Cluster.apply_filter g s c) = Ok tt.
Proof.
  intros Hne.
  unfold Cluster.apply_filter, bind, get, modify, lift_result, Cluster.values.
  simpl.
  destruct (map_to_list (Cluster.species_frequency c)) as [|[k v] l] eqn:Hl.
  { by apply map_to_list_empty_iff in Hl. }
  simpl. destruct (Z.geb _ _); simpl; by destruct (Z.leb _ _).
Qed.

(** X1. A parsed cluster is well formed: its name has no surrounding
    whitespace and no colon, each of its sequence identifiers is a
    non-empty text without whitespace and without colon, and its two
    flags are unset. *)
Theorem X1_parsed_cluster_well_formed (line : string) (c : Cluster.t) :
  Cluster.__init__ line = Ok c →
  Py.strip (Cluster.name c) = Cluster.name c
  ∧ Py.contains ":" (Cluster.name c) = false
  ∧ Forall Spec.token (Cluster.sequences c)
  ∧ Forall (fun id => Py.contains ":" id = false) (Cluster.sequences c)
  ∧ Cluster.gene_compliant c = None
  ∧ Cluster.species_compliant c = None.
Proof.
  intros (a & rest & -> & Ha & ->)%init_shape. simpl.
  split; [apply strip_idem |].
  split; [by apply contains_strip |].
  split; [by apply split_ws_go_tokens |].
  split; [|done].
  apply split_ws_go_contains; [done |].
  apply contains_strip, contains_before.
Qed.

Lemma X1_parsed_cluster_well_formed_witness :
  Py.strip "G1" = "G1"
  ∧ Py.contains ":" "G1" = false
  ∧ Forall Spec.token ["sp1|a"; "sp2|b"]
  ∧ Forall (fun id => Py.contains ":" id = false) ["sp1|a"; "sp2|b"]
  ∧ (None : option bool) = None
  ∧ (None : option bool) = None.
Proof.
  apply (X1_parsed_cluster_well_formed "  G1 :  sp1|a   sp2|b : rest"
           (Cluster.mk "G1" ["sp1|a"; "sp2|b"] {[ "sp1" := 1; "sp2" := 1 ]}
              None None)).
  vm_compute. reflexivity.
Defined.

(** X2. The keys of [species_frequency] of a parsed cluster are exactly the
    species codes of its sequence identifiers (the text before the first
    [|]); the dictionary is empty exactly when the cluster has no
    sequence. *)
Theorem X2_species_frequency_keys (line : string) (c : Cluster.t) :
  Cluster.__init__ line = Ok c →
  (∀ species,
     is_Some (Cluster.species_frequency c !! species)
     ↔ ∃ id, id ∈ Cluster.sequences c ∧ Spec.before "|" id = species)
  ∧ (Cluster.species_frequency c = ∅ ↔ Cluster.sequences c = []).
Proof.
  intros (a & rest & -> & Ha & ->)%init_shape. simpl.
  split; [intros species; apply frequency_of_lookup |].
  apply frequency_of_empty.
Qed.

Lemma X2_species_frequency_keys_witness :
  is_Some (({[ "sp1" := 2; "sp2" := 1 ]} : gmap string nat) !! "sp2")
  ↔ ∃ id, id ∈ ["sp1|a"; "sp1|b"; "sp2|c"] ∧ Spec.before "|" id = "sp2".
Proof.
  assert (H : Cluster.__init__ "G1: sp1|a sp1|b sp2|c"
              = Ok (Cluster.mk "G1" ["sp1|a"; "sp1|b"; "sp2|c"]
                      {[ "sp1" := 2; "sp2" := 1 ]} None None))
    by (vm_compute; reflexivity).
  exact (proj1 (X2_species_frequency_keys _ _ H) "sp2").
Defined.

(** X3. On a cluster whose [species_frequency] is not empty [apply_filter]
    returns normally; it sets [species_compliant] to whether the number of
    species is at least the species threshold and [gene_compliant] to
    whether every frequency is at most the gene threshold, and changes
    nothing else. *)
Theorem X3_apply_filter_sets_both_flags (c : Cluster.t) (g s : Z) :
  Cluster.species_frequency c ≠ ∅ →
  Cluster.apply_filter g s c
  = (Cluster.mk (Cluster.name c) (Cluster.sequences c)
       (Cluster.species_frequency c)
       (Some (bool_decide
                (map_Forall (fun _ f => (Z.of_nat f ≤ g)%Z)
                            (Cluster.species_frequency c))))
       (Some (bool_decide
                (s ≤ Z.of_nat (size (Cluster.species_frequency c)))%Z)),
     Ok tt).
Proof.
  intros Hne.
  unfold Cluster.apply_filter, bind, get, modify, lift_result, Cluster.values.
  simpl.
  assert (Hsp : (Z.of_nat (size (Cluster.species_frequency c)) >=? s)%Z
                = bool_decide
                    (s ≤ Z.of_nat (size (Cluster.species_frequency c)))%Z).
  { rewrite Z.geb_leb. destruct (Z.leb_spec s
      (Z.of_nat (size (Cluster.species_frequency c))));
      [by rewrite bool_decide_eq_true_2
      | by rewrite bool_decide_eq_false_2 by lia]. }
  destruct (map_to_list (Cluster.species_frequency c)) as [|[k v] l] eqn:Hl.
  { by apply map_to_list_empty_iff in Hl. }
  assert (Hg : (Z.of_nat (foldr Nat.max v l.*2) <=? g)%Z
               = bool_decide
                   (map_Forall (fun _ f => (Z.of_nat f ≤ g)%Z)
                               (Cluster.species_frequency c))).
  { pose proof (values_at_most g (Cluster.species_frequency c)) as Hv.
    rewrite Hl in Hv. change (((k, v) :: l).*2) with (v :: l.*2) in Hv.
    rewrite <- max_le in Hv.
    destruct (Z.leb_spec (Z.of_nat (foldr Nat.max v l.*2)) g) as [H|H].
    - rewrite bool_decide_eq_true_2; [done | by apply Hv].
    - rewrite bool_decide_eq_false_2; [done |]. intros HF%Hv. lia. }
  simpl. rewrite Hsp.
  destruct (bool_decide (s ≤ _)%Z); simpl;
    change (list_fmap (string * nat)%type nat snd l) with (l.*2);
    rewrite Hg;
    by destruct (bool_decide (map_Forall _ _)).
Qed.

Lemma X3_apply_filter_sets_both_flags_witness :
  Cluster.apply_filter 1 2
    (Cluster.mk "G1" ["sp1|a"; "sp1|b"; "sp2|c"]
       {[ "sp1" := 2; "sp2" := 1 ]} None None)
  = (Cluster.mk "G1" ["sp1|a"; "sp1|b"; "sp2|c"]
       {[ "sp1" := 2; "sp2" := 1 ]} (Some false) (Some true), Ok tt).
Proof.
  rewrite (X3_apply_filter_sets_both_flags
             (Cluster.mk "G1" ["sp1|a"; "sp1|b"; "sp2|c"]
                {[ "sp1" := 2; "sp2" := 1 ]} None None) 1 2).
  - vm_compute. reflexivity.
  - vm_compute. discriminate.
Defined.

(** X4. [apply_filter] is idempotent: a second call with the same
    thresholds ends as the first one did, with the same cluster and the
    same outcome, whether it returns or raises. *)
Theorem X4_apply_filter_idempotent (c : Cluster.t) (g s : Z) :
  Cluster.apply_filter g s (fst (Cluster.apply_filter g s c))
  = Cluster.apply_filter g s c.
Proof.
  rewrite (apply_filter_eq c), (apply_filter_eq (fst _)).
  destruct (Py.max (Cluster.values c)) as [m|e] eqn:Hm; simpl;
    change (Cluster.values _) with (Cluster.values c); by rewrite Hm.
Qed.

(** X5. For a cluster made by the constructor, whatever filters were
    applied to it since, [apply_filter] raises ValueError exactly when the
    cluster has no sequence, and returns normally otherwise. *)
Theorem X5_apply_filter_raises_iff_no_sequence (c : Cluster.t) (g s : Z) :
  Spec.constructed c →
  (snd (Cluster.apply_filter g s c) = Raise ValueError
   ↔ Cluster.sequences c = [])
  ∧ (snd (Cluster.apply_filter g s c) = Ok tt
     ↔ Cluster.sequences c ≠ []).
Proof.
  intros (line & c0 & Hinit & _ & Hs & Hf)%constructed_shape.
  apply init_shape in Hinit as (a & rest & _ & _ & ->). simpl in Hs, Hf.
  pose proof (frequency_of_empty (Cluster.sequences c)) as Hempty.
  rewrite Hs in Hempty at 1. rewrite <- Hf in Hempty.
  destruct (decide (Cluster.species_frequency c = ∅)) as [He|Hne].
  - rewrite (apply_filter_empty _ _ _ He). simpl.
    apply Hempty in He. split; split; done.
  - rewrite (apply_filter_returns _ g s Hne).
    split; split; try done.
    + intros Hnil. by apply Hempty in Hnil.
    + intros _ Hnil. by apply Hempty in Hnil.
Qed.

Lemma X5_apply_filter_raises_iff_no_sequence_witness :
  snd (Cluster.apply_filter 1 2 (Cluster.mk "G1" [] ∅ None None))
  = Raise ValueError
  ↔ Cluster.sequences (Cluster.mk "G1" [] ∅ None None) = [].
Proof.
  apply (X5_apply_filter_raises_iff_no_sequence
           (Cluster.mk "G1" [] ∅ None None) 1 2).
  apply (Spec.constructed_init "G1:"). vm_compute. reflexivity.
Defined.

(** ** Export and re-parse *)

Lemma export_line_parses (name : string) (sequences : list string) :
  Py.strip name = name → Py.contains ":" name = false →
  Forall Spec.token sequences →
  Forall (fun id => Py.contains ":" id = false) sequences →
  Cluster.__init__
    (name +:+ ": " +:+ Py.join " " sequences +:+ Py.nl)
  = Ok (Cluster.mk name sequences (Spec.frequency_of sequences) None None).
Proof.
  intros Hstrip Hcolon Htok Hids.
  change (name +:+ ": " +:+ Py.join " " sequences +:+ Py.nl)
    with (name +:+ String ":" (String " " (Py.join " " sequences +:+ Py.nl))).
  rewrite (parse_string_colon _ _ Hcolon).
  assert (Hrest : Py.contains ":"
                    (String " " (Py.join " " sequences +:+ Py.nl)) = false).
  { change (Py.contains ":" (String " " ?x))
      with (Ascii.eqb " " ":" || Py.contains ":" x).
    rewrite contains_app, contains_join by done. done. }
  rewrite (before_no_sep _ _ Hrest), split_ws_strip, Hstrip.
  assert (Hseq : Py.split_ws (String " " (Py.join " " sequences +:+ Py.nl))
                 = sequences).
  { unfold Py.split_ws. rewrite split_ws_go_space by done.
    rewrite flush_empty. by apply split_ws_join. }
  cbv zeta. by rewrite Hseq.
Qed.

(** X6. Round trip of one cluster: the line [export_filtered_group] writes
    for a constructed cluster parses back to a cluster with the same name,
    the same sequences and the same [species_frequency], its flags
    unset. *)
Theorem X6_export_line_round_trip (c : Cluster.t) :
  Spec.constructed c →
  Cluster.__init__ (Group.export_line c)
  = Ok (Cluster.mk (Cluster.name c) (Cluster.sequences c)
          (Cluster.species_frequency c) None None).
Proof.
  intros (line & c0 & Hinit & Hn & Hs & Hf)%constructed_shape.
  unfold Group.export_line. rewrite Hn, Hs, Hf.
  apply init_shape in Hinit as (a & rest & _ & Ha & ->). simpl.
  apply export_line_parses.
  - apply strip_idem.
  - by apply contains_strip.
  - by apply split_ws_go_tokens.
  - apply split_ws_go_contains; [done |].
    apply contains_strip, contains_before.
Qed.

Lemma X6_export_line_round_trip_witness :
  Cluster.__init__
    (Group.export_line
       (Cluster.mk "G1" ["sp1|a"; "sp2|b"] {[ "sp1" := 1; "sp2" := 1 ]}
          (Some true) (Some true)))
  = Ok (Cluster.mk "G1" ["sp1|a"; "sp2|b"] {[ "sp1" := 1; "sp2" := 1 ]}
          None None).
Proof.
  assert (H : Spec.constructed
                (Cluster.mk "G1" ["sp1|a"; "sp2|b"]
                   {[ "sp1" := 1; "sp2" := 1 ]} (Some true) (Some true))).
  { assert (E : fst (Cluster.apply_filter 1 2
                      (Cluster.mk "G1" ["sp1|a"; "sp2|b"]
                         {[ "sp1" := 1; "sp2" := 1 ]} None None))
                 = Cluster.mk "G1" ["sp1|a"; "sp2|b"]
                     {[ "sp1" := 1; "sp2" := 1 ]} (Some true) (Some true))
      by (vm_compute; reflexivity).
    rewrite <- E. apply Spec.constructed_apply_filter.
    apply (Spec.constructed_init "  G1 :  sp1|a   sp2|b : rest").
    vm_compute. reflexivity. }
  exact (X6_export_line_round_trip _ H).
Defined.

(** ** More on the construction of a group *)

Section construction_errors.

Implicit Types (self : Group.t) (w : World) (c : Cluster.t).

Lemma init_raises line e :
  Cluster.__init__ line = Raise e → e = IndexError.
Proof.
  unfold Cluster.__init__, Cluster.parse_string.
  destruct (Py.split ":" line) as [|f0 [|f1 fs]]; by intros [= <-].
Qed.

Lemma apply_filter_raises c g s e :
  snd (Cluster.apply_filter g s c) = Raise e → e = ValueError.
Proof.
  rewrite apply_filter_eq. unfold Py.max.
  destruct (Cluster.values c); simpl; [by intros [= <-] | done].
Qed.

Lemma parse_line_result line self w :
  ∃ self' w' r,
    Group.parse_line line (self, w) = ((self', w'), r)
    ∧ files w' = files w
    ∧ (r = Ok tt ∨ r = Raise IndexError ∨ r = Raise ValueError)
    ∧ (Py.contains ":" line = false → r = Raise IndexError).
Proof.
  unfold Group.parse_line, new_Cluster, on_cluster. se_unfold.
  destruct (Cluster.__init__ line) as [c0|e] eqn:Hinit; simpl.
  - assert (Hcolon : Py.contains ":" line = false → False).
    { intros H. by rewrite (init_no_colon _ H) in Hinit. }
    destruct (Group.thresholds _) as [[g s]|]; simpl.
    + rewrite (list_lookup_total_middle _ [] c0) by done.
      destruct (Cluster.apply_filter g s c0) as [c r] eqn:Hf. simpl.
      destruct r as [[]|e]; simpl.
      * destruct (Cluster.both_compliant _); simpl;
          do 3 eexists; (split; [done |]); split; [done | | done |]; 
          split; [by left | done | by left | done].
      * assert (e = ValueError) as ->
          by (apply (apply_filter_raises c0 g s); by rewrite Hf).
        do 3 eexists. split; [done |]. split; [done |].
        split; [by right; right | done].
    + do 3 eexists. split; [done |]. split; [done |].
      split; [by left | done].
  - apply init_raises in Hinit as ->.
    do 3 eexists. split; [done |]. split; [done |].
    split; [by right; left | done].
Qed.

Lemma parse_lines_raise (lines : list string) line : ∀ self w,
  line ∈ lines → Py.contains ":" line = false →
  ∃ self' w' e,
    for_each lines Group.parse_line (self, w) = ((self', w'), Raise e)
    ∧ files w' = files w
    ∧ (e = IndexError ∨ e = ValueError).
Proof.
  induction lines as [|line0 lines IH]; intros self w Hin Hcolon.
  { by apply elem_of_nil in Hin. }
  simpl. unfold bind.
  destruct (parse_line_result line0 self w)
    as (self1 & w1 & r & -> & Hfiles & Hr & Hbad).
  apply elem_of_cons in Hin as [<- | Hin].
  - rewrite (Hbad Hcolon). do 3 eexists. split; [done |]. by auto.
  - destruct Hr as [-> | [-> | ->]].
    + destruct (IH self1 w1 Hin Hcolon) as (self' & w' & e & -> & Hf & He).
      do 3 eexists. split; [done |]. split; [congruence | done].
    + do 3 eexists. split; [done |]. by auto.
    + do 3 eexists. split; [done |]. by auto.
Qed.

End construction_errors.

(** X7. A groups file with a line that has no colon, a blank line for
    instance, cannot be loaded: the constructor of [Group] raises
    (IndexError, or ValueError when an earlier line gave an empty cluster
    to the filter) and no file is changed. *)
Theorem X7_line_without_colon_aborts_construction
    (groups_file prefix text line : string) (gt st : option Z) (w : World) :
  files w !! groups_file = Some text →
  line ∈ Py.readlines text →
  Py.contains ":" line = false →
  ∃ w' e,
    Group.__init__ groups_file gt st prefix w = (w', Raise e)
    ∧ (e = IndexError ∨ e = ValueError)
    ∧ files w' = files w.
Proof.
  intros Hfile Hin Hcolon.
  unfold Group.__init__, Group.__parse_groups, open_r.
  unfold bind at 1 2 3. unfold modify_self at 1 2, in_world at 1.
  cbn [fst snd]. rewrite Hfile.
  match goal with |- context [for_each _ _ (?s, _)] =>
    destruct (parse_lines_raise (Py.readlines text) line s w Hin Hcolon)
      as (self' & w' & e & -> & Hf & He)
  end.
  by exists w', e.
Qed.

Lemma X7_line_without_colon_aborts_construction_witness :
  ∃ w' e,
    Group.__init__ "groups.txt" None None "MyGroups"
      (mkWorld [] {[ "groups.txt" := "G1: a|x" +:+ Py.nl +:+ Py.nl ]}
               ∅ EmptyString)
    = (w', Raise e)
    ∧ (e = IndexError ∨ e = ValueError)
    ∧ files w' = {[ "groups.txt" := "G1: a|x" +:+ Py.nl +:+ Py.nl ]}.
Proof.
  assert (Hin : Py.nl ∈ Py.readlines ("G1: a|x" +:+ Py.nl +:+ Py.nl))
    by (vm_compute; right; left).
  exact (X7_line_without_colon_aborts_construction "groups.txt" "MyGroups"
           ("G1: a|x" +:+ Py.nl +:+ Py.nl) Py.nl None None
           (mkWorld [] {[ "groups.txt" := "G1: a|x" +:+ Py.nl +:+ Py.nl ]}
                    ∅ EmptyString)
           eq_refl Hin eq_refl).
Defined.

(** ** The list of species of a group *)

Section species_list.

Implicit Types (self : Group.t) (w : World) (c : Cluster.t)
  (l xs : list string).

Lemma append_new_elem xs : ∀ l x,
  x ∈ Group.append_new l xs ↔ x ∈ l ∨ x ∈ xs.
Proof.
  unfold Group.append_new.
  induction xs as [|y xs IH]; intros l x; simpl.
  - rewrite elem_of_nil. tauto.
  - rewrite IH, elem_of_cons. case_bool_decide as Hy.
    + split; [tauto |]. intros [? | [-> | ?]]; auto.
    + rewrite elem_of_app, list_elem_of_singleton. tauto.
Qed.

Lemma append_new_NoDup xs : ∀ l, NoDup l → NoDup (Group.append_new l xs).
Proof.
  unfold Group.append_new.
  induction xs as [|y xs IH]; intros l Hl; simpl; [done |].
  apply IH. case_bool_decide as Hy; [done |].
  apply NoDup_app. split; [done |]. split; [|apply NoDup_singleton].
  intros x Hx ->%list_elem_of_singleton. done.
Qed.

Lemma parsed_as_keys th line c c0 :
  Spec.parsed_as th line c → Cluster.__init__ line = Ok c0 →
  Group.keys c = Group.keys c0.
Proof.
  unfold Group.keys. destruct th as [[g s]|]; simpl.
  - intros (c1 & H1 & Hf) H0. rewrite H1 in H0. injection H0 as ->.
    destruct (apply_filter_frame c0 g s) as (_ & _ & Hsf).
    rewrite Hf in Hsf. simpl in Hsf. by rewrite Hsf.
  - intros H1 H0. rewrite H1 in H0. by injection H0 as ->.
Qed.

Lemma parse_line_species line self w self' w' :
  Group.parse_line line (self, w) = ((self', w'), Ok tt) →
  ∃ c0,
    Cluster.__init__ line = Ok c0
    ∧ Group.species_list self'
      = Group.append_new (Group.species_list self) (Group.keys c0).
Proof.
  unfold Group.parse_line, new_Cluster, on_cluster. se_unfold.
  destruct (Cluster.__init__ line) as [c0|e] eqn:Hinit; simpl; [|done].
  rewrite (list_lookup_total_middle _ [] c0) by done.
  change (Group.thresholds (Group.set_species_list _ (Group.set_groups _ self)))
    with (Group.thresholds self).
  destruct (Group.thresholds self) as [[g s]|]; simpl.
  - rewrite (list_lookup_total_middle _ [] c0) by done.
    destruct (Cluster.apply_filter g s c0) as [c r]. simpl.
    destruct r as [[]|e]; simpl; [|done].
    rewrite insert_last, (list_lookup_total_middle _ [] c) by done.
    destruct (Cluster.both_compliant c); simpl;
      intros [= <- <-]; by exists c0.
  - intros [= <- <-]. by exists c0.
Qed.

Lemma parse_lines_species lines : ∀ self w self' w',
  for_each lines Group.parse_line (self, w) = ((self', w'), Ok tt) →
  ∃ cs,
    heap w' = heap w ++ cs
    ∧ Group.species_list self'
      = foldl (fun acc c => Group.append_new acc (Group.keys c))
              (Group.species_list self) cs.
Proof.
  induction lines as [|line lines IH]; intros self w self' w'; simpl.
  - unfold ret. intros [= <- <-]. exists []. by rewrite app_nil_r.
  - unfold bind at 1.
    destruct (Group.parse_line line (self, w)) as [[self1 w1] [[]|e]] eqn:Hl;
      [|done].
    intros Hrest.
    destruct (parse_line_species _ _ _ _ _ Hl) as (c0 & Hinit & Hsp).
    apply parse_line_ok in Hl as (c & Hc & -> & _).
    apply IH in Hrest as (cs & Hheap & Hsp').
    exists (c :: cs). simpl in *.
    rewrite Hheap, <- app_assoc. split; [done |].
    by rewrite Hsp', Hsp, (parsed_as_keys _ _ _ _ Hc Hinit).
Qed.

Lemma species_fold_elem (cs : list Cluster.t) : ∀ l x,
  x ∈ foldl (fun acc c => Group.append_new acc (Group.keys c)) l cs
  ↔ x ∈ l ∨ ∃ c, c ∈ cs ∧ x ∈ Group.keys c.
Proof.
  induction cs as [|c cs IH]; intros l x; simpl.
  - split; [by left |]. intros [? | (c & ?%elem_of_nil & _)]; done.
  - rewrite IH, append_new_elem. split.
    + intros [[? | ?] | (c' & Hc' & Hx)]; [by left | |].
      * right. exists c. split; [by left | done].
      * right. exists c'. split; [by right | done].
    + intros [? | (c' & Hc' & Hx)]; [by left; left |].
      apply elem_of_cons in Hc' as [-> | Hc']; [by left; right |].
      right. by exists c'.
Qed.

Lemma species_fold_NoDup (cs : list Cluster.t) : ∀ l,
  NoDup l →
  NoDup (foldl (fun acc c => Group.append_new acc (Group.keys c)) l cs).
Proof.
  induction cs as [|c cs IH]; intros l Hl; simpl; [done |].
  by apply IH, append_new_NoDup.
Qed.

Lemma keys_elem c (species : string) :
  species ∈ Group.keys c
  ↔ is_Some (Cluster.species_frequency c !! species).
Proof.
  unfold Group.keys. rewrite list_elem_of_fmap. split.
  - intros ([k v] & -> & Hin). apply elem_of_map_to_list in Hin. by exists v.
  - intros [v Hv]. exists (species, v). split; [done |].
    by apply elem_of_map_to_list.
Qed.

End species_list.

(** X8. After the construction of a group, [species_list] has no
    duplicates and holds exactly the species that are keys of the
    [species_frequency] of some cluster of the group. *)
Theorem X8_species_list_distinct_and_complete
    (groups_file prefix : string) (gt st : option Z) (w w' : World)
    (self : Group.t) :
  Group.__init__ groups_file gt st prefix w = (w', Ok self) →
  NoDup (Group.species_list self)
  ∧ ∀ species,
      species ∈ Group.species_list self
      ↔ ∃ l, l ∈ Group.groups self
             ∧ is_Some (Cluster.species_frequency (heap w' !!! l) !! species).
Proof.
  intros Hinit.
  pose proof (init_ok _ _ _ _ _ _ _ Hinit)
    as (text & cs & Hfile & _ & Hw & Hg & _).
  revert Hinit.
  unfold Group.__init__, Group.__parse_groups, open_r.
  unfold bind at 1 2 3. unfold modify_self at 1 2, in_world at 1.
  cbn [fst snd]. rewrite Hfile.
  match goal with |- context [for_each _ _ ?s] =>
    destruct (for_each (Py.readlines text) Group.parse_line s)
      as [[self1 w1] [[]|e]] eqn:Hloop; [|done]
  end.
  intros [= -> ->].
  apply parse_lines_species in Hloop as (cs' & Hheap & Hsp).
  simpl in Hheap, Hsp. rewrite Hw in Hheap. simpl in Hheap.
  apply app_inv_head in Hheap as <-.
  rewrite Hsp. split; [apply species_fold_NoDup, NoDup_nil_2 |].
  intros species. rewrite species_fold_elem, elem_of_nil.
  pose proof (clusters_of_new cs (heap w)) as Hcs.
  rewrite Hg, Hw. simpl. split.
  - intros [[] | (c & Hc & Hk)]. rewrite <- Hcs in Hc.
    apply list_elem_of_fmap in Hc as (l & -> & Hl).
    exists l. split; [done |]. by apply keys_elem.
  - intros (l & Hl & Hk). right. exists ((heap w ++ cs) !!! l).
    split; [|by apply keys_elem].
    rewrite <- Hcs at 2. apply list_elem_of_fmap. by exists l.
Qed.

Lemma X8_species_list_distinct_and_complete_witness :
  ∃ self w',
    Group.__init__ "groups.txt" None None "MyGroups" Examples.three_clusters
    = (w', Ok self)
    ∧ NoDup (Group.species_list self)
    ∧ length (Group.species_list self) = 3.
Proof.
  eexists. eexists.
  match goal with |- ?A ∧ _ => assert (H : A) by (vm_compute; reflexivity) end.
  split; [exact H |].
  split; [exact (proj1 (X8_species_list_distinct_and_complete _ _ _ _ _ _ _ H))
         | reflexivity].
Defined.

(** ** Statistics of a group *)

Section statistics.

Implicit Types (self : Group.t) (w : World) (refs : list nat).

Lemma statistics_loop_spec w refs : ∀ seqs sp gene all,
  Group.statistics_loop (map (fun l => heap w !!! l) refs)
    (seqs, sp, gene, all)
  = (seqs + Spec.sequence_count w refs, sp + Spec.species_count w refs,
     gene + Spec.gene_count w refs, all + Spec.both_count w refs).
Proof.
  unfold Spec.sequence_count, Spec.species_count, Spec.gene_count,
    Spec.both_count, Spec.doubly_compliant.
  induction refs as [|l refs IH]; intros seqs sp gene all; simpl.
  - by rewrite !Nat.add_0_r.
  - rewrite IH, !filter_cons. unfold Cluster.both_compliant. simpl.
    destruct (truthy (Cluster.species_compliant (heap w !!! l)));
      destruct (truthy (Cluster.gene_compliant (heap w !!! l))); simpl;
      (apply (f_equal2 pair);
         [apply (f_equal2 pair); [apply (f_equal2 pair) |] |]); lia.
Qed.

Lemma basic_group_statistics_spec filt self w :
  Group.basic_group_statistics filt (self, w)
  = ((self, w),
     Ok [length (Group.selected filt self);
         Spec.sequence_count w (Group.selected filt self);
         Spec.species_count w (Group.selected filt self);
         Spec.gene_count w (Group.selected filt self);
         Spec.both_count w (Group.selected filt self)]).
Proof.
  unfold Group.basic_group_statistics. se_unfold.
  by rewrite statistics_loop_spec.
Qed.

Lemma length_filter_mono {A} (P Q : A → Prop)
    `{!∀ x, Decision (P x)} `{!∀ x, Decision (Q x)} (l : list A) :
  (∀ x, P x → Q x) → length (filter P l) ≤ length (filter Q l).
Proof.
  intros HPQ. induction l as [|x l IH]; [done |].
  rewrite !filter_cons.
  destruct (decide (P x)) as [HP|HP]; destruct (decide (Q x)) as [HQ|HQ];
    simpl; try lia.
  by destruct HQ; apply HPQ.
Qed.

Lemma both_compliant_flags (c : Cluster.t) :
  Cluster.both_compliant c = true
  ↔ truthy (Cluster.species_compliant c) = true
    ∧ truthy (Cluster.gene_compliant c) = true.
Proof. unfold Cluster.both_compliant. apply andb_true_iff. Qed.

Lemma counts_of_compliant w refs :
  Forall (fun l => Cluster.both_compliant (heap w !!! l) = true) refs →
  Spec.species_count w refs = length refs
  ∧ Spec.gene_count w refs = length refs
  ∧ Spec.both_count w refs = length refs.
Proof.
  intros H.
  unfold Spec.species_count, Spec.gene_count, Spec.both_count,
    Spec.doubly_compliant.
  rewrite !filter_all; [done | done | |].
  - eapply Forall_impl; [exact H |]. by intros l [_ ?]%both_compliant_flags.
  - eapply Forall_impl; [exact H |]. by intros l [? _]%both_compliant_flags.
Qed.

Lemma doubly_compliant_all w refs :
  Forall (fun l => Cluster.both_compliant (heap w !!! l) = true)
         (Spec.doubly_compliant w refs).
Proof.
  unfold Spec.doubly_compliant. apply Forall_forall.
  by intros l [? _]%list_elem_of_filter.
Qed.

End statistics.

(** X9. [update_filtered_group] never raises, changes neither the
    clusters, the files nor the other attributes of the group, and is
    idempotent: a second call leaves the state the first call made. *)
Theorem X9_update_filtered_group_idempotent (self : Group.t) (w : World) :
  ∃ self',
    Group.update_filtered_group (self, w) = ((self', w), Ok tt)
    ∧ Group.groups self' = Group.groups self
    ∧ Group.species_list self' = Group.species_list self
    ∧ Group.gene_threshold self' = Group.gene_threshold self
    ∧ Group.species_threshold self' = Group.species_threshold self
    ∧ Group.update_filtered_group (self', w) = ((self', w), Ok tt).
Proof.
  eexists. rewrite update_filtered_group_spec.
  split; [done |]. repeat (split; [done |]).
  by rewrite update_filtered_group_spec.
Qed.

(** X10. [basic_group_statistics] returns five numbers and changes
    nothing: the number of selected clusters, the number of their
    sequences, and three counters.  No counter exceeds the number of
    clusters, and the counter of the clusters compliant with both
    thresholds exceeds neither of the two others. *)
Theorem X10_basic_group_statistics_bounds
    (filt : bool) (self : Group.t) (w : World) :
  ∃ total seqs sp gene both,
    Group.basic_group_statistics filt (self, w)
    = ((self, w), Ok [total; seqs; sp; gene; both])
    ∧ total = length (Group.selected filt self)
    ∧ seqs = Spec.sequence_count w (Group.selected filt self)
    ∧ sp ≤ total ∧ gene ≤ total ∧ both ≤ sp ∧ both ≤ gene.
Proof.
  rewrite basic_group_statistics_spec. do 5 eexists.
  split; [done |]. split; [done |]. split; [done |].
  unfold Spec.species_count, Spec.gene_count, Spec.both_count,
    Spec.doubly_compliant.
  split; [apply length_filter |]. split; [apply length_filter |].
  split; apply length_filter_mono; by intros l [? ?]%both_compliant_flags.
Qed.

(** X11. When every cluster of [filtered_groups] has both flags true, as
    right after [update_filtered_group], the statistics of the filtered
    groups report the same number four times: clusters, species
    compliant, gene compliant and compliant with both. *)
Theorem X11_statistics_of_filtered_groups (self : Group.t) (w : World) :
  Forall (fun l => Cluster.both_compliant (heap w !!! l) = true)
         (Group.filtered_groups self) →
  Group.basic_group_statistics true (self, w)
  = ((self, w),
     Ok [length (Group.filtered_groups self);
         Spec.sequence_count w (Group.filtered_groups self);
         length (Group.filtered_groups self);
         length (Group.filtered_groups self);
         length (Group.filtered_groups self)]).
Proof.
  intros H. rewrite basic_group_statistics_spec. simpl.
  by destruct (counts_of_compliant _ _ H) as (-> & -> & ->).
Qed.

Lemma X11_statistics_of_filtered_groups_witness :
  ∃ self w,
    Group.__init__ "groups.txt" (Some 1%Z) (Some 2%Z) "MyGroups"
      Examples.three_clusters = (w, Ok self)
    ∧ Group.basic_group_statistics true
        (fst (Group.update_filtered_group (self, w)))
      = (fst (Group.update_filtered_group (self, w)), Ok [1; 2; 1; 1; 1]).
Proof.
  eexists. eexists.
  match goal with |- ?A ∧ _ => assert (H : A) by (vm_compute; reflexivity) end.
  split; [exact H |].
  rewrite update_filtered_group_spec. cbn [fst].
  rewrite X11_statistics_of_filtered_groups.
  - vm_compute. reflexivity.
  - apply doubly_compliant_all.
Defined.

(** ** The counters of the export *)

Section export_counters.

Implicit Types (self : Group.t) (w : World) (refs : list nat).


End export_counters.




(** ** Writing FASTA files *)

Section fasta.

Implicit Types (self : Group.t) (w : World) (refs : list nat)
  (db : gmap string string).

Lemma fasta_records db path (ids : list string) : ∀ w text,
  files w !! path = Some text →
  ∃ w' r,
    for_each ids (Group.fasta_record db path) w = (w', r)
    ∧ heap w' = heap w ∧ dirs w' = dirs w ∧ stdout w' = stdout w
    ∧ (Forall (fun id => is_Some (db !! id)) ids →
       r = Ok tt
       ∧ w' = set_files
                (<[path := text +:+ Spec.concat (map (Spec.fasta_entry db) ids)]>
                   (files w)) w)
    ∧ (¬ Forall (fun id => is_Some (db !! id)) ids → r = Raise KeyError).
Proof.
  induction ids as [|id ids IH]; intros w text Hpath.
  - exists w, (Ok tt). simpl. unfold ret. do 4 (split; [done |]).
    split; [|intros H; destruct H; constructor].
    intros _. split; [done |]. simpl.
    by rewrite append_empty_r, (insert_id _ _ _ Hpath), set_files_id.
  - simpl. unfold bind, Group.fasta_record at 1.
    destruct (db !! id) as [seq|] eqn:Hid.
    + unfold write, modify. rewrite Hpath. simpl.
      match goal with |- context [for_each _ _ ?w1] =>
        destruct (IH w1 (text +:+ Spec.fasta_entry db id))
          as (w' & r & -> & Hh & Hd & Hs & Hok & Hbad)
      end.
      { simpl. unfold Spec.fasta_entry. rewrite Hid. apply lookup_insert_eq. }
      exists w', r. split; [done |]. repeat (split; [done |]). split.
      * intros [_ Hall]%Forall_cons. destruct (Hok Hall) as [-> ->].
        split; [done |]. unfold set_files. simpl.
        by rewrite insert_insert_eq, append_assoc.
      * intros Hnot. apply Hbad. intros Hall. apply Hnot.
        constructor; [by rewrite Hid | done].
    + exists w, (Raise KeyError). unfold raise.
      repeat (split; [done |]). split; [|done].
      intros [[? Hsome] _]%Forall_cons. by rewrite Hid in Hsome.
Qed.

Lemma write_cluster_step db l self w :
  Spec.write_cluster db l (self, w)
  = match writable (Spec.fasta_path (heap w !!! l)) w with
    | Ok _ =>
        match for_each (Cluster.sequences (heap w !!! l))
                (Group.fasta_record db (Spec.fasta_path (heap w !!! l)))
                (set_files (<[Spec.fasta_path (heap w !!! l)
                              := EmptyString]> (files w)) w)
        with
        | (w1, r) => ((self, w1), r)
        end
    | Raise e => ((self, w), Raise e)
    end.
Proof.
  unfold Spec.write_cluster, Spec.fasta_path, bind, in_world, deref,
    open_w_checked.
  cbn [fst snd].
  by destruct (writable _ w) as [[]|e].
Qed.

Lemma utf8_length_app (a b : string) :
  Py.utf8_length (a +:+ b) = Py.utf8_length a + Py.utf8_length b.
Proof.
  induction a as [|c a IH]; [done |].
  rewrite append_cons. simpl. rewrite IH. lia.
Qed.

Lemma utf8_length_le (a : string) : String.length a ≤ Py.utf8_length a.
Proof.
  induction a as [|c a IH]; simpl; [done |].
  destruct (Nat.ltb _ 128); lia.
Qed.

Lemma string_length_app (a b : string) :
  String.length (a +:+ b) = String.length a + String.length b.
Proof.
  induction a as [|c a IH]; [done |].
  rewrite append_cons. simpl. by rewrite IH.
Qed.

Lemma same_directory_length (name : string) :
  same_directory name = true → String.length name ≤ 2.
Proof.
  unfold same_directory.
  intros [[H|H]%orb_prop|H]%orb_prop.
  - destruct name; [simpl; lia | done].
  - apply String.eqb_eq in H as ->. simpl. lia.
  - apply String.eqb_eq in H as ->. simpl. lia.
Qed.

Lemma fasta_path_plain c :
  Py.contains "/" (Cluster.name c) = false →
  Spec.fasta_path c = "Orthologs" +:+ String "/" (Cluster.name c +:+ ".fas").
Proof.
  unfold Spec.fasta_path, Py.path_join. intros H.
  destruct (Cluster.name c) as [|a name]; [reflexivity |].
  rewrite append_cons. simpl in H. apply orb_false_elim in H as [Ha _].
  destruct (Ascii.eqb_spec a "/") as [->|Hne]; [done |].
  destruct a as [[] [] [] [] [] [] [] []]; try reflexivity.
  by destruct Hne.
Qed.

Lemma file_name_spec (name : string) :
  Spec.file_name name = true →
  Py.contains "/" name = false ∧ Py.contains Py.nul name = false
  ∧ Py.utf8_length name ≤ 251.
Proof.
  unfold Spec.file_name.
  intros [[H1 H2]%andb_prop H3]%andb_prop.
  apply negb_true_iff in H1, H2. apply Nat.leb_le in H3. done.
Qed.

Lemma creatable_spec w c :
  Spec.creatable w c = true →
  Spec.file_name (Cluster.name c) = true ∧ Spec.fasta_path c ∉ dirs w.
Proof.
  unfold Spec.creatable. intros [H1 H2]%andb_prop. split; [done |].
  apply negb_true_iff in H2. by apply bool_decide_eq_false in H2.
Qed.

Lemma creatable_dirs w w' c :
  dirs w' = dirs w → Spec.creatable w' c = Spec.creatable w c.
Proof. unfold Spec.creatable. by intros ->. Qed.

(** Where the directories are walked: the path of a file in [Orthologs]
    has the two components [Orthologs] and the file name. *)
Lemma fasta_path_components c :
  Spec.file_name (Cluster.name c) = true →
  Py.split "/" (Spec.fasta_path c)
  = ["Orthologs"; Cluster.name c +:+ ".fas"].
Proof.
  intros (Hs & _ & _)%file_name_spec. rewrite (fasta_path_plain c Hs).
  rewrite split_app by reflexivity. f_equal.
  apply split_no_sep. by rewrite contains_app, Hs.
Qed.

Lemma file_name_checks c :
  Spec.file_name (Cluster.name c) = true →
  Py.contains Py.nul (Spec.fasta_path c) = false
  ∧ Py.is_empty (Spec.fasta_path c) = false
  ∧ Nat.leb 4096 (Py.utf8_length (Spec.fasta_path c)) = false
  ∧ same_directory (Cluster.name c +:+ ".fas") = false
  ∧ Nat.ltb 255 (Py.utf8_length (Cluster.name c +:+ ".fas")) = false
  ∧ Py.is_empty (Cluster.name c +:+ ".fas") = false.
Proof.
  intros (Hs & Hn & Hlen)%file_name_spec. rewrite (fasta_path_plain c Hs).
  split; [|split; [|split; [|split; [|split]]]]; [| | | | |by destruct (Cluster.name c)].
  - change (String "/" (Cluster.name c +:+ ".fas"))
      with ("/" +:+ (Cluster.name c +:+ ".fas")).
    by rewrite !contains_app, Hn.
  - reflexivity.
  - apply Nat.leb_gt.
    change (String "/" (Cluster.name c +:+ ".fas"))
      with ("/" +:+ (Cluster.name c +:+ ".fas")).
    rewrite !utf8_length_app. simpl. lia.
  - destruct (same_directory _) eqn:E; [|done].
    apply same_directory_length in E. rewrite string_length_app in E.
    simpl in E. lia.
  - apply Nat.ltb_ge. rewrite utf8_length_app. simpl. lia.
Qed.

(** In a world where [Orthologs] is a directory the file of a creatable
    cluster can be opened. *)
Lemma writable_creatable w c :
  "Orthologs" ∈ dirs w →
  Spec.creatable w c = true →
  writable (Spec.fasta_path c) w = Ok tt.
Proof.
  intros Hdir [Hname Hpath]%creatable_spec.
  destruct (file_name_checks c Hname) as (H1 & H2 & H3 & H4 & H5 & H6).
  unfold writable.
  rewrite H1, H2, H3, (fasta_path_components c Hname).
  pose proof (file_name_spec _ Hname) as (Hs & _ & _).
  rewrite (fasta_path_plain c Hs) in Hpath.
  cbn [resolve forallb]. rewrite H6. cbn [andb].
  change (same_directory "Orthologs") with false.
  change (Nat.ltb 255 (Py.utf8_length "Orthologs")) with false.
  rewrite append_nil, H4, H5. cbv iota.
  rewrite (bool_decide_eq_true_2 _ Hdir).
  by rewrite (bool_decide_eq_false_2 _ Hpath).
Qed.

(** When [Orthologs] is a regular file the first component of the path
    already fails. *)
Lemma writable_not_a_directory w c :
  "Orthologs" ∉ dirs w →
  is_Some (files w !! "Orthologs") →
  Spec.file_name (Cluster.name c) = true →
  writable (Spec.fasta_path c) w = Raise NotADirectoryError.
Proof.
  intros Hdir Hfile Hname.
  destruct (file_name_checks c Hname) as (H1 & H2 & H3 & _ & _ & H6).
  unfold writable.
  rewrite H1, H2, H3, (fasta_path_components c Hname).
  cbn [resolve forallb]. rewrite H6. cbn [andb].
  change (same_directory "Orthologs") with false.
  change (Nat.ltb 255 (Py.utf8_length "Orthologs")) with false.
  rewrite append_nil. cbv iota.
  rewrite (bool_decide_eq_false_2 _ Hdir).
  by rewrite (bool_decide_eq_true_2 _ Hfile).
Qed.

Lemma open_w_checked_writable (path : string) w :
  writable path w = Ok tt → open_w_checked path w = open_w path w.
Proof. unfold open_w_checked. by intros ->. Qed.

Lemma fasta_clusters db self refs : ∀ w,
  "Orthologs" ∈ dirs w →
  Forall (fun l => Spec.creatable w (heap w !!! l) = true) refs →
  ∃ w' r,
    for_each refs (Spec.write_cluster db) (self, w)
    = ((self, w'), r)
    ∧ heap w' = heap w ∧ dirs w' = dirs w ∧ stdout w' = stdout w
    ∧ (Forall (fun l => Forall (fun id => is_Some (db !! id))
                               (Cluster.sequences (heap w !!! l))) refs →
       r = Ok tt ∧ files w' = Spec.fasta_files db w refs (files w))
    ∧ (¬ Forall (fun l => Forall (fun id => is_Some (db !! id))
                                 (Cluster.sequences (heap w !!! l))) refs →
       r = Raise KeyError).
Proof.
  induction refs as [|l refs IH]; intros w Hdir Hcreate.
  - exists w, (Ok tt). simpl. unfold ret. do 4 (split; [done |]).
    split; [done |]. intros H. destruct H. constructor.
  - apply Forall_cons in Hcreate as [Hl0 Hcreate].
    change (for_each (l :: refs) (Spec.write_cluster db))
      with (bind (Spec.write_cluster db l)
                 (fun _ => for_each refs (Spec.write_cluster db))).
    unfold bind at 1.
    rewrite write_cluster_step, (writable_creatable w _ Hdir Hl0).
    destruct (fasta_records db
                (Spec.fasta_path (heap w !!! l))
                (Cluster.sequences (heap w !!! l))
                (set_files (<[Spec.fasta_path (heap w !!! l)
                              := EmptyString]> (files w)) w) EmptyString)
      as (w1 & r1 & -> & Hh1 & Hd1 & Hs1 & Hok1 & Hbad1).
    { simpl. apply lookup_insert_eq. }
    destruct (decide (Forall (fun id => is_Some (db !! id))
                             (Cluster.sequences (heap w !!! l)))) as [Hl|Hl].
    + destruct (Hok1 Hl) as [-> Hw1].
      simpl in Hh1, Hd1, Hs1.
      destruct (IH w1) as (w' & r & -> & Hh & Hd & Hs & Hok & Hbad).
      { by rewrite Hd1. }
      { rewrite Hh1. eapply Forall_impl; [exact Hcreate |].
        intros l'. simpl. by rewrite (creatable_dirs w w1 _ Hd1). }
      rewrite Hh1 in Hok, Hbad.
      exists w', r. split; [done |].
      split; [congruence |]. split; [congruence |]. split; [congruence |].
      split.
      * intros [_ Hall]%Forall_cons. destruct (Hok Hall) as [-> Hfiles].
        split; [done |]. rewrite Hfiles.
        unfold Spec.fasta_files. rewrite Hh1, Hw1. simpl.
        by rewrite insert_insert_eq, append_nil.
      * intros Hnot. apply Hbad. intros Hall. apply Hnot. by constructor.
    + rewrite (Hbad1 Hl).
      exists w1, (Raise KeyError). split; [done |].
      repeat (split; [done |]). split; [|done].
      by intros [? _]%Forall_cons.
Qed.

Lemma fasta_files_other db w refs (path : string) : ∀ f,
  Forall (fun l => Spec.fasta_path (heap w !!! l) ≠ path) refs →
  Spec.fasta_files db w refs f !! path = f !! path.
Proof.
  unfold Spec.fasta_files.
  induction refs as [|l refs IH]; intros f Hall; simpl; [done |].
  apply Forall_cons in Hall as [Hl Hall].
  by rewrite IH, lookup_insert_ne.
Qed.

Lemma fasta_files_lookup db w refs : ∀ f i l,
  refs !! i = Some l →
  (∀ j l', i < j → refs !! j = Some l' →
           Spec.fasta_path (heap w !!! l') ≠ Spec.fasta_path (heap w !!! l)) →
  Spec.fasta_files db w refs f !! Spec.fasta_path (heap w !!! l)
  = Some (Spec.fasta_text db (heap w !!! l)).
Proof.
  induction refs as [|l0 refs IH]; intros f i l Hi Hlater; [done |].
  destruct i as [|i]; simpl in Hi.
  - injection Hi as ->. change (Spec.fasta_files db w (l :: refs) f)
      with (Spec.fasta_files db w refs
              (<[Spec.fasta_path (heap w !!! l)
                 := Spec.fasta_text db (heap w !!! l)]> f)).
    rewrite fasta_files_other; [apply lookup_insert_eq |].
    apply Forall_forall. intros l' [j Hj]%list_elem_of_lookup.
    apply (Hlater (S j)); [lia | done].
  - change (Spec.fasta_files db w (l0 :: refs) f)
      with (Spec.fasta_files db w refs
              (<[Spec.fasta_path (heap w !!! l0)
                 := Spec.fasta_text db (heap w !!! l0)]> f)).
    apply (IH _ i); [done |].
    intros j l' Hj Hl'. apply (Hlater (S j)); [lia | done].
Qed.

Lemma prepared_frame filt self w :
  heap (Spec.prepared filt self w) = heap w
  ∧ files (Spec.prepared filt self w) = files w
  ∧ ("Orthologs" ∈ dirs (Spec.prepared filt self w)
     ∨ is_Some (files w !! "Orthologs")).
Proof.
  unfold Spec.prepared.
  destruct filt; simpl;
    (destruct (bool_decide _ || bool_decide _) eqn:E; simpl;
     [|split; [done |]; split; [done |]; left; set_solver]);
    (split; [done |]; split; [done |]);
    apply orb_prop in E as [E|E]; apply bool_decide_eq_true in E; auto.
Qed.

Lemma prepared_dirs filt self w (path : string) :
  path ∈ dirs (Spec.prepared filt self w) →
  path = "Orthologs" ∨ path ∈ dirs w.
Proof.
  unfold Spec.prepared.
  destruct filt; simpl; destruct (bool_decide _ || bool_decide _); simpl;
    set_solver.
Qed.

Lemma prepared_creatable filt self w refs :
  Forall (fun l => Spec.creatable w (heap w !!! l) = true) refs →
  Forall (fun l => Spec.creatable (Spec.prepared filt self w)
                     (heap (Spec.prepared filt self w) !!! l) = true) refs.
Proof.
  destruct (prepared_frame filt self w) as (-> & _ & _).
  intros H. eapply Forall_impl; [exact H |]. clear H. intros l Hl. simpl.
  destruct (creatable_spec _ _ Hl) as [Hname Hpath].
  unfold Spec.creatable. rewrite Hname. simpl.
  apply negb_true_iff, bool_decide_eq_false_2.
  intros [Heq|Hin]%prepared_dirs; [|done].
  apply (f_equal String.length) in Heq.
  destruct (file_name_spec _ Hname) as (Hs & _ & _).
  rewrite (fasta_path_plain _ Hs), string_length_app in Heq.
  simpl in Heq. lia.
Qed.

Lemma retrieve_fasta_dict Alignment db filt self w :
  Group.retrieve_fasta Alignment (Group.DbDict db) filt (self, w)
  = for_each (Group.selected filt self) (Spec.write_cluster db)
      (self, Spec.prepared filt self w).
Proof.
  unfold Group.retrieve_fasta, Spec.prepared.
  unfold bind at 1 2 3 4. unfold get_self at 1. cbn [fst snd].
  destruct filt; se_unfold;
    by destruct (bool_decide _ || bool_decide _).
Qed.

End fasta.

(** X13. [retrieve_fasta] with a database that is neither a string nor a
    dictionary raises OrthoGroupException, but only after it has printed
    the filtered sequences (when [filt] is true) and created the directory
    [Orthologs]; no file is written and no cluster changes. *)
Theorem X13_retrieve_fasta_rejects_other_database
    (Alignment : string → SE World (gmap string string))
    (filt : bool) (self : Group.t) (w : World) :
  Group.retrieve_fasta Alignment Group.DbOther filt (self, w)
  = ((self, Spec.prepared filt self w),
     Raise (OrthoGroupException Group.bad_database))
  ∧ heap (Spec.prepared filt self w) = heap w
  ∧ files (Spec.prepared filt self w) = files w
  ∧ ("Orthologs" ∈ dirs (Spec.prepared filt self w)
     ∨ is_Some (files w !! "Orthologs")).
Proof.
  split; [|apply prepared_frame].
  unfold Group.retrieve_fasta, Spec.prepared.
  destruct filt; se_unfold;
    by destruct (bool_decide _ || bool_decide _).
Qed.

(** X14. With a dictionary as database, when [Orthologs] is not a regular
    file and the file of every selected cluster can be created in it (the
    name of the cluster has no slash and no NUL character and at most 251
    bytes, and no directory has the path of the file), [retrieve_fasta]
    raises KeyError as soon as a sequence identifier of a selected cluster
    is not a key of the dictionary; the group and its clusters are
    unchanged. *)
Theorem X14_retrieve_fasta_missing_sequence
    (Alignment : string → SE World (gmap string string))
    (db : gmap string string) (filt : bool) (self : Group.t) (w : World)
    (l : nat) (sequence_id : string) :
  files w !! "Orthologs" = None →
  Forall (fun l' => Spec.creatable w (heap w !!! l') = true)
         (Group.selected filt self) →
  l ∈ Group.selected filt self →
  sequence_id ∈ Cluster.sequences (heap w !!! l) →
  db !! sequence_id = None →
  ∃ w',
    Group.retrieve_fasta Alignment (Group.DbDict db) filt (self, w)
    = ((self, w'), Raise KeyError)
    ∧ heap w' = heap w.
Proof.
  intros Hfile Hcreate Hl Hid Hnone. rewrite retrieve_fasta_dict.
  destruct (prepared_frame filt self w) as (Hheap & _ & [Hdir|Hsome]);
    [|rewrite Hfile in Hsome; by destruct Hsome].
  destruct (fasta_clusters db self (Group.selected filt self)
              (Spec.prepared filt self w) Hdir
              (prepared_creatable filt self w _ Hcreate))
    as (w' & r & -> & Hh & _ & _ & _ & Hbad).
  exists w'. split; [|congruence].
  rewrite Hbad; [done |]. rewrite Hheap.
  intros Hall. rewrite Forall_forall in Hall. specialize (Hall l Hl).
  rewrite Forall_forall in Hall. destruct (Hall _ Hid) as [seq Hseq].
  congruence.
Qed.

Lemma X14_retrieve_fasta_missing_sequence_witness :
  ∃ w',
    Group.retrieve_fasta (fun _ => ret ∅) (Group.DbDict {[ "a|x" := "ACGT" ]})
      false (Examples.both_clusters, Examples.two_clusters)
    = ((Examples.both_clusters, w'), Raise KeyError)
    ∧ heap w' = heap Examples.two_clusters.
Proof.
  apply (X14_retrieve_fasta_missing_sequence (fun _ => ret ∅)
           {[ "a|x" := "ACGT" ]} false Examples.both_clusters
           Examples.two_clusters 0 "b|y").
  - reflexivity.
  - repeat constructor.
  - simpl. left.
  - simpl. right. left.
  - reflexivity.
Defined.

(** X15. With a dictionary that knows every sequence of every selected
    cluster, when [Orthologs] is not a regular file and the file of every
    selected cluster can be created in it (the name of the cluster has no
    slash and no NUL character and at most 251 bytes, and no directory has
    the path of the file), [retrieve_fasta] returns normally and changes no
    cluster.  The file [Orthologs/name.fas] of a selected cluster then
    holds one entry for each sequence of the cluster, in order, unless a
    later selected cluster has the same file name, whose file replaces
    it. *)
Theorem X15_retrieve_fasta_writes_clusters
    (Alignment : string → SE World (gmap string string))
    (db : gmap string string) (filt : bool) (self : Group.t) (w : World) :
  files w !! "Orthologs" = None →
  Forall (fun l => Spec.creatable w (heap w !!! l) = true)
         (Group.selected filt self) →
  Forall (fun l => Forall (fun id => is_Some (db !! id))
                          (Cluster.sequences (heap w !!! l)))
         (Group.selected filt self) →
  ∃ w',
    Group.retrieve_fasta Alignment (Group.DbDict db) filt (self, w)
    = ((self, w'), Ok tt)
    ∧ heap w' = heap w
    ∧ "Orthologs" ∈ dirs w'
    ∧ ∀ i l,
        Group.selected filt self !! i = Some l →
        (∀ j l', i < j → Group.selected filt self !! j = Some l' →
                 Spec.fasta_path (heap w !!! l')
                 ≠ Spec.fasta_path (heap w !!! l)) →
        files w' !! Spec.fasta_path (heap w !!! l)
        = Some (Spec.fasta_text db (heap w !!! l)).
Proof.
  intros Hfile Hcreate Hall. rewrite retrieve_fasta_dict.
  destruct (prepared_frame filt self w) as (Hheap & Hfiles & [Hdir|Hsome]);
    [|rewrite Hfile in Hsome; by destruct Hsome].
  destruct (fasta_clusters db self (Group.selected filt self)
              (Spec.prepared filt self w) Hdir
              (prepared_creatable filt self w _ Hcreate))
    as (w' & r & -> & Hh & Hd & _ & Hok & _).
  rewrite Hheap in Hok. destruct (Hok Hall) as [-> Hw'].
  exists w'. split; [done |]. split; [congruence |].
  split; [by rewrite Hd |].
  intros i l Hi Hlater. rewrite Hw'.
  unfold Spec.fasta_files. rewrite Hheap.
  by apply (fasta_files_lookup db w _ _ i).
Qed.

Lemma X15_retrieve_fasta_writes_clusters_witness :
  ∃ w',
    Group.retrieve_fasta (fun _ => ret ∅)
      (Group.DbDict {[ "a|x" := "ACGT"; "b|y" := "TTGA"; "a|z" := "CC" ]})
      false (Examples.both_clusters, Examples.two_clusters)
    = ((Examples.both_clusters, w'), Ok tt)
    ∧ files w' !! Spec.fasta_path (heap Examples.two_clusters !!! 0)
      = Some (Spec.fasta_text
                {[ "a|x" := "ACGT"; "b|y" := "TTGA"; "a|z" := "CC" ]}
                (heap Examples.two_clusters !!! 0)).
Proof.
  destruct (X15_retrieve_fasta_writes_clusters (fun _ => ret ∅)
              {[ "a|x" := "ACGT"; "b|y" := "TTGA"; "a|z" := "CC" ]}
              false Examples.both_clusters Examples.two_clusters)
    as (w' & Heq & _ & _ & Hfile).
  { reflexivity. }
  { repeat constructor. }
  { vm_compute. repeat constructor; by eexists. }
  exists w'. split; [exact Heq |].
  apply (Hfile 0 0 eq_refl).
  intros [|[|j]] l' Hj Hl'; [lia | | done].
  injection Hl' as <-. vm_compute. discriminate.
Defined.

Lemma prepared_regular_file filt self w :
  is_Some (files w !! "Orthologs") →
  dirs (Spec.prepared filt self w) = dirs w.
Proof.
  intros Hsome. unfold Spec.prepared.
  destruct filt; simpl; rewrite (bool_decide_eq_true_2 _ Hsome);
    by rewrite orb_true_r.
Qed.

(** X21. When [Orthologs] is a regular file, [retrieve_fasta] does not
    notice: the path exists, so no directory is made, and with a
    dictionary as database the call raises NotADirectoryError when it
    opens the file of the first selected cluster (a cluster whose name has
    no slash and no NUL character and at most 251 bytes).  No file, no
    directory and no cluster changes. *)
Theorem X21_retrieve_fasta_orthologs_is_a_file
    (Alignment : string → SE World (gmap string string))
    (db : gmap string string) (filt : bool) (self : Group.t) (w : World)
    (l : nat) (refs : list nat) :
  "Orthologs" ∉ dirs w →
  is_Some (files w !! "Orthologs") →
  Group.selected filt self = l :: refs →
  Spec.file_name (Cluster.name (heap w !!! l)) = true →
  Group.retrieve_fasta Alignment (Group.DbDict db) filt (self, w)
  = ((self, Spec.prepared filt self w), Raise NotADirectoryError)
  ∧ heap (Spec.prepared filt self w) = heap w
  ∧ files (Spec.prepared filt self w) = files w
  ∧ dirs (Spec.prepared filt self w) = dirs w.
Proof.
  intros Hdir Hsome Hsel Hname.
  destruct (prepared_frame filt self w) as (Hheap & Hfiles & _).
  pose proof (prepared_regular_file filt self w Hsome) as Hdirs.
  split; [|done].
  rewrite retrieve_fasta_dict, Hsel.
  change (for_each (l :: refs) (Spec.write_cluster db))
    with (bind (Spec.write_cluster db l)
               (fun _ => for_each refs (Spec.write_cluster db))).
  unfold bind at 1. rewrite write_cluster_step, Hheap.
  rewrite writable_not_a_directory; [done | | | done].
  - by rewrite Hdirs.
  - by rewrite Hfiles.
Qed.

Lemma X21_retrieve_fasta_orthologs_is_a_file_witness :
  Group.retrieve_fasta (fun _ => ret ∅) (Group.DbDict {[ "a|x" := "ACGT" ]})
    false
    (Examples.both_clusters,
     set_files {[ "Orthologs" := "text" ]} Examples.two_clusters)
  = ((Examples.both_clusters,
      set_files {[ "Orthologs" := "text" ]} Examples.two_clusters),
     Raise NotADirectoryError).
Proof.
  assert (Hdir : "Orthologs"
                 ∉ dirs (set_files {[ "Orthologs" := "text" ]}
                           Examples.two_clusters))
    by (simpl; set_solver).
  assert (Hsome : is_Some (files (set_files {[ "Orthologs" := "text" ]}
                                    Examples.two_clusters) !! "Orthologs"))
    by (by eexists).
  exact (proj1 (X21_retrieve_fasta_orthologs_is_a_file (fun _ => ret ∅)
                  {[ "a|x" := "ACGT" ]} false Examples.both_clusters
                  (set_files {[ "Orthologs" := "text" ]}
                     Examples.two_clusters)
                  0 [1] Hdir Hsome eq_refl eq_refl)).
Defined.

(** ** The table of paralogs *)

Section paralog_table.

Implicit Types (c : Cluster.t) (d : list (string * nat)) (sp k : string)
  (self : Group.t) (w : World).













End paralog_table.



(** ** Several groups *)

Section multigroups_more.

Implicit Types (self : Group.t) (w : World).

Lemma parse_line_frame line self w self' w' r :
  Group.parse_line line (self, w) = ((self', w'), r) →
  Group.group_name self' = Group.group_name self
  ∧ Group.name self' = Group.name self
  ∧ Group.prefix self' = Group.prefix self.
Proof.
  unfold Group.parse_line, new_Cluster, on_cluster. se_unfold.
  destruct (Cluster.__init__ line) as [c0|e]; simpl; [|by intros [= <- _ _]].
  destruct (Group.thresholds _) as [[g s]|]; simpl; [|by intros [= <- _ _]].
  destruct (Cluster.apply_filter g s _) as [c [[]|e]]; simpl;
    [|by intros [= <- _ _]].
  destruct (Cluster.both_compliant _); simpl; by intros [= <- _ _].
Qed.

Lemma parse_lines_frame lines : ∀ self w self' w' r,
  for_each lines Group.parse_line (self, w) = ((self', w'), r) →
  Group.group_name self' = Group.group_name self
  ∧ Group.name self' = Group.name self
  ∧ Group.prefix self' = Group.prefix self.
Proof.
  induction lines as [|line lines IH]; intros self w self' w' r; simpl.
  - unfold ret. by intros [= <- _ _].
  - unfold bind at 1.
    destruct (Group.parse_line line (self, w)) as [[self1 w1] r1] eqn:Hl.
    apply parse_line_frame in Hl as (Hg & Hn & Hp).
    destruct r1 as [[]|e].
    + intros (Hg' & Hn' & Hp')%IH. split; [|split]; congruence.
    + by intros [= <- _ _].
Qed.

Lemma group_init_fields groups_file gt st prefix w w' self :
  Group.__init__ groups_file gt st prefix w = (w', Ok self) →
  Group.group_name self = groups_file
  ∧ Group.name self = Some groups_file
  ∧ Group.prefix self = prefix.
Proof.
  unfold Group.__init__, Group.__parse_groups, open_r.
  unfold bind at 1 2 3. unfold modify_self at 1 2, in_world at 1.
  cbn [fst snd].
  destruct (files w !! groups_file) as [text|]; [|done].
  match goal with |- context [for_each _ _ ?s] =>
    destruct (for_each (Py.readlines text) Group.parse_line s)
      as [[self1 w1] [[]|e]] eqn:Hloop; [|done]
  end.
  intros [= -> ->]. by apply parse_lines_frame in Hloop.
Qed.

Lemma init_loop_ok (groups_files : list string) gt st : ∀ built w w' groups,
  MultiGroups.init_loop groups_files gt st built w = (w', Ok groups) →
  ∃ new,
    groups = built ++ new
    ∧ Forall2 (fun file g =>
                 Group.group_name g = file ∧ Group.name g = Some file
                 ∧ Group.prefix g = "MyGroups"
                 ∧ Group.gene_threshold g = gt
                 ∧ Group.species_threshold g = st)
              groups_files new.
Proof.
  induction groups_files as [|file rest IH]; intros built w w' groups; simpl.
  - unfold ret. intros [= _ <-]. exists []. by rewrite app_nil_r.
  - unfold bind at 1.
    destruct (Group.__init__ file gt st "MyGroups" w) as [w1 [g|e]] eqn:Hg;
      [|done].
    intros (new & -> & Hnew)%IH.
    exists (g :: new). rewrite <- app_assoc. split; [done |].
    constructor; [|done].
    destruct (group_init_fields _ _ _ _ _ _ _ Hg) as (? & ? & ?).
    apply init_ok in Hg as (_ & _ & _ & _ & _ & _ & _ & ? & ?).
    done.
Qed.

End multigroups_more.

(** X17. [MultiGroups(groups_files, ...)] builds one group for each file
    name, in the order of the list, each with the thresholds of the
    [MultiGroups] object; it does not pass its project prefix on, so every
    group keeps the default prefix [MyGroups]. *)
Theorem X17_multigroups_construction
    (groups_files : option (list string)) (gt st : option Z)
    (prefix : string) (w w' : World) (self : MultiGroups.t) :
  MultiGroups.__init__ groups_files gt st prefix w = (w', Ok self) →
  MultiGroups.prefix self = prefix
  ∧ MultiGroups.gene_threshold self = gt
  ∧ MultiGroups.species_threshold self = st
  ∧ Forall2 (fun file g =>
               Group.group_name g = file ∧ Group.name g = Some file
               ∧ Group.prefix g = "MyGroups"
               ∧ Group.gene_threshold g = gt
               ∧ Group.species_threshold g = st)
            (default [] groups_files) (MultiGroups.multiple_groups self).
Proof.
  unfold MultiGroups.__init__, bind, ret.
  destruct (MultiGroups.init_loop _ gt st [] w) as [w1 [groups|e]] eqn:Hloop;
    [|done].
  intros [= _ <-]. simpl. repeat (split; [done |]).
  by apply init_loop_ok in Hloop as (new & -> & Hnew).
Qed.

Lemma X17_multigroups_construction_witness :
  ∃ self w',
    MultiGroups.__init__ (Some ["groups.txt"; "groups.txt"])
      (Some 1%Z) (Some 2%Z) "Project" Examples.three_clusters = (w', Ok self)
    ∧ MultiGroups.prefix self = "Project"
    ∧ Group.prefix <$> MultiGroups.multiple_groups self
      = ["MyGroups"; "MyGroups"].
Proof.
  eexists. eexists.
  match goal with |- ?A ∧ _ => assert (H : A) by (vm_compute; reflexivity) end.
  split; [exact H |].
  split; [exact (proj1 (X17_multigroups_construction _ _ _ _ _ _ _ H))
         | reflexivity].
Defined.

(** ** The table of several groups *)

Section multigroup_table.

Implicit Types (w : World) (g : Group.t) (key : option string)
  (storage : list (option string * list nat)).








End multigroup_table.





(** ** Exporting a group and loading the export *)

Section lines.

Implicit Types (s cur body rest line : string) (c ch : ascii).








End lines.

Section round_trip.

Implicit Types (self : Group.t) (w : World) (c : Cluster.t).









End round_trip.

Section reload.

Implicit Types (self : Group.t) (w : World) (cs : list Cluster.t).





End reload.


